(** * TokenManager: a shallow embedding of [token.go]

    The program renews an OAuth-style token pair against a remote endpoint,
    writes the access token to a file and, as a daemon, repeats with the
    refresh token of the previous answer.

    The embedding follows the Go source function by function.  The process
    state is explicit: a [World] holds the file system and the trace of
    observable events (log lines, standard output, sleeps, HTTP exchanges).
    A computation either returns a value or terminates the process
    ([log.Fatal], [os.Exit]).  What the Go standard library computes from
    data the program never inspects (X.509 parsing, request dumps, URL
    validation) is taken as a parameter ([GoLib]); the network is an oracle
    ([http_Do]) answering from the history of requests.  The CA bootstrap
    is a parameter of [main], so that the renewal code is verified for every
    bootstrap; the [LoadCAs] of the source is embedded after it and can be put
    in its place.  [encoding/json] is modelled in full, since what [Renew]
    returns is what it decodes. *)

From stdpp Require Import base strings list gmap.
From Stdlib Require Import ZArith Ascii String Lia.

Set Warnings "-register-all".

Open Scope string_scope.

(** ** Go values *)

(** A Go [error] is modelled by its message ([err.Error()]). *)
Definition error := string.

(** A Go pair [(value, err)] of which exactly one side is meaningful. *)
Inductive result (A : Type) :=
| Ok (a : A)
| Err (e : error).
Arguments Ok {A} a.
Arguments Err {A} e.

Definition LF : string := String (ascii_of_nat 10) EmptyString.

(** ** Bytes and runes *)

Definition code (c : ascii) : Z := Z.of_N (N_of_ascii c).
Definition chr (n : Z) : ascii := ascii_of_N (Z.to_N n).
Definition between (lo hi : Z) (c : ascii) : bool :=
  bool_decide (lo ≤ code c ≤ hi)%Z.


(** Length of the well-formed multi-byte UTF-8 sequence that starts [s]
    ([utf8.DecodeRune]); 0 when the bytes are not one. *)
Definition utf8_sequence (s : string) : nat :=
  let cont := between 128 191 in
  match s with
  | String a (String b r) =>
      if between 194 223 a then (if cont b then 2 else 0)
      else match r with
      | String c r' =>
          let three :=
            (between 224 224 a && between 160 191 b
             || (between 225 236 a || between 238 239 a) && cont b
             || between 237 237 a && between 128 159 b) && cont c in
          if three then 3
          else match r' with
          | String d _ =>
              if (between 240 240 a && between 144 191 b
                  || between 241 243 a && cont b
                  || between 244 244 a && between 128 143 b) && cont c && cont d
              then 4 else 0
          | _ => 0
          end
      | _ => 0
      end
  | _ => 0
  end%nat.

(** The width of the rune at the head of a non-empty string
    ([utf8.DecodeRuneInString]): an invalid byte counts for one. *)
Definition rune_width (s : string) : nat :=
  match utf8_sequence s with O => 1 | n => n end.

(** ** strings.Replace *)

Fixpoint has_prefix (p s : string) : bool :=
  match p, s with
  | EmptyString, _ => true
  | String a p', String b s' => if decide (a = b) then has_prefix p' s' else false
  | String _ _, EmptyString => false
  end.

(** [replace_scan old new limit skip s] copies [s] and replaces the
    non-overlapping occurrences of [old], leftmost first; [limit] is the number
    of replacements still allowed ([None]: no limit) and [skip] the number of
    bytes of the occurrence just replaced that are still to be dropped. *)
Fixpoint replace_scan (old new : string) (limit : option nat) (skip : nat)
    (s : string) : string :=
  match s with
  | EmptyString => EmptyString
  | String c s' =>
      match skip with
      | S k => replace_scan old new limit k s'
      | O =>
          match limit with
          | Some O => s
          | _ =>
              if has_prefix old s
              then new +:+ replace_scan old new (pred <$> limit) (String.length old - 1) s'
              else String c (replace_scan old new limit 0 s')
          end
      end
  end.

(** [insert_scan new limit copy s] copies [s] and inserts [new] before each
    rune and at the end (the occurrences of the empty string); [copy] is the
    number of bytes of the current rune still to be copied. *)
Fixpoint insert_scan (new : string) (limit : option nat) (copy : nat)
    (s : string) : string :=
  match s with
  | EmptyString => match limit with Some O => EmptyString | _ => new end
  | String c s' =>
      match copy with
      | S k => String c (insert_scan new limit k s')
      | O =>
          match limit with
          | Some O => s
          | _ => new +:+ String c (insert_scan new (pred <$> limit) (rune_width s - 1) s')
          end
      end
  end.

(** [strings.Replace(s, old, new, n)]: the first [n] non-overlapping
    occurrences of [old] replaced by [new], all of them when [n < 0]. *)
Definition strings_Replace (s old new : string) (n : Z) : string :=
  let limit := if decide (n < 0)%Z then None else Some (Z.to_nat n) in
  if decide (old = new) then s
  else if decide (n = 0%Z) then s
  else if decide (old = "") then insert_scan new limit 0 s
  else replace_scan old new limit 0 s.

(** The specification's wording of the same: every newline character
    removed, everything else kept in order. *)
Fixpoint strip_newlines (s : string) : string :=
  match s with
  | EmptyString => EmptyString
  | String c s' =>
      if decide (c = ascii_of_nat 10) then strip_newlines s'
      else String c (strip_newlines s')
  end.

Fixpoint occurs (c : ascii) (s : string) : bool :=
  match s with
  | EmptyString => false
  | String d s' => if decide (c = d) then true else occurs c s'
  end.

(** ** File system *)

(** Paths are compared as written (no normalisation).  A path that is not in
    the map does not exist.  [Unreachable] marks a path that does not exist
    and cannot be created, as below a directory without search or write
    permission.  A directory node holds its listing; making an entry adds its
    name to the listing of the directory it is made in. *)
Inductive node :=
| File (data : string) (readable writable : bool)
| Dir (names : list string) (listable : bool)
| Unreachable.

Definition lookup_path (fs : gmap string node) (p : string) : option node :=
  if decide (p = "") then None
  else match fs !! p with
       | Some Unreachable => None
       | o => o
       end.

(** [os.Stat(p)]: [None] is Go's [err == nil]. *)
Definition os_Stat (fs : gmap string node) (p : string) : option error :=
  match lookup_path fs p with
  | Some _ => None
  | None => Some ("stat " +:+ p +:+ ": no such file or directory")
  end.

Definition ioutil_ReadFile (fs : gmap string node) (p : string) : result string :=
  match lookup_path fs p with
  | Some (File data true _) => Ok data
  | Some (File _ false _) => Err ("open " +:+ p +:+ ": permission denied")
  | Some (Dir _ _) => Err ("read " +:+ p +:+ ": is a directory")
  | _ => Err ("open " +:+ p +:+ ": no such file or directory")
  end.

(** [ioutil.ReadDir(p)]: the entry names of a listable directory (Go returns
    them sorted by name; the node stores them in that order). *)
Definition ioutil_ReadDir (fs : gmap string node) (p : string) : result (list string) :=
  match lookup_path fs p with
  | Some (Dir names true) => Ok names
  | Some (Dir _ false) => Err ("open " +:+ p +:+ ": permission denied")
  | Some (File _ _ _) => Err ("readdirent " +:+ p +:+ ": not a directory")
  | _ => Err ("open " +:+ p +:+ ": no such file or directory")
  end.

(** [p] cut at its last slash into the directory part and the entry name;
    [None] when [p] has no slash. *)
Fixpoint split_last (p : string) : option (string * string) :=
  match p with
  | EmptyString => None
  | String c p' =>
      match split_last p' with
      | Some (d, b) => Some (String c d, b)
      | None => if decide (c = "/"%char) then Some (EmptyString, p') else None
      end
  end.

(** The directory an entry is made in: a path without a slash names an entry
    of the current directory, a path whose only slash is its first byte an
    entry of the root. *)
Definition dirname (p : string) : string :=
  match split_last p with
  | None => "."
  | Some (d, _) => if decide (d = "") then "/" else d
  end.

Definition basename (p : string) : string :=
  match split_last p with
  | None => p
  | Some (_, b) => b
  end.

(** A listing with one more name, in the order of [ioutil.ReadDir] (sorted by
    name, byte by byte); a name that is listed already is not listed twice. *)
Fixpoint insert_name (name : string) (names : list string) : list string :=
  match names with
  | [] => [name]
  | n :: ns => if String.ltb name n then name :: names else n :: insert_name name ns
  end.

Definition add_name (name : string) (names : list string) : list string :=
  if bool_decide (name ∈ names) then names else insert_name name names.

(** The file system after the entry [p], which is not in it, was made with the
    node [nd]: the directory part of [p] must be a directory of the file
    system, and its listing gains the name.  [op] is the system call, for the
    text of the error. *)
Definition create_entry (op : string) (fs : gmap string node) (p : string) (nd : node)
    : result (gmap string node) :=
  match fs !! dirname p with
  | Some (Dir names listable) =>
      if decide (basename p = "") then Err (op +:+ " " +:+ p +:+ ": is a directory")
      else Ok (<[p := nd]>
                 (<[dirname p := Dir (add_name (basename p) names) listable]> fs))
  | Some (File _ _ _) => Err (op +:+ " " +:+ p +:+ ": not a directory")
  | _ => Err (op +:+ " " +:+ p +:+ ": no such file or directory")
  end.

(** [ioutil.WriteFile(p, data, 0777)]: create or truncate, then write. *)
Definition ioutil_WriteFile (fs : gmap string node) (p data : string)
    : result (gmap string node) :=
  if decide (p = "") then Err "open : no such file or directory"
  else match fs !! p with
       | None => create_entry "open" fs p (File data true true)
       | Some (File _ r true) => Ok (<[p := File data r true]> fs)
       | Some (File _ _ false) => Err ("open " +:+ p +:+ ": permission denied")
       | Some (Dir _ _) => Err ("open " +:+ p +:+ ": is a directory")
       | Some Unreachable => Err ("open " +:+ p +:+ ": no such file or directory")
       end.

(** ** The token record *)

(** [TokenRecord]; the JSON member name of each field is its struct tag. *)
Record TokenRecord := {
  AccessToken : string;          (* json:"access_token" *)
  AccessTokenExpire : Z;         (* json:"expires_in", int64 *)
  RefreshToken : string;         (* json:"refresh_token" *)
  RefreshTokenExpire : Z;        (* json:"refresh_expires_in", int64 *)
  IdToken : string               (* json:"id_token" *)
}.

(** The zero value of [var rec TokenRecord]. *)
Definition zero_record : TokenRecord :=
  {| AccessToken := ""; AccessTokenExpire := 0; RefreshToken := "";
     RefreshTokenExpire := 0; IdToken := "" |}.

(** ** encoding/json: syntax *)

Inductive json :=
| JNull
| JBool (b : bool)
| JNum (literal : string)
| JStr (s : string)
| JArr (items : list json)
| JObj (members : list (string * json)).

Definition is_space (c : ascii) : bool :=
  bool_decide (code c = 32 ∨ code c = 9 ∨ code c = 10 ∨ code c = 13)%Z.
Definition is_digit (c : ascii) : bool := between 48 57 c.

Fixpoint skip_space (s : string) : string :=
  match s with
  | String c s' => if is_space c then skip_space s' else s
  | EmptyString => s
  end.

Fixpoint drop_bytes (n : nat) (s : string) : string :=
  match n, s with
  | S k, String _ s' => drop_bytes k s'
  | _, _ => s
  end.

Fixpoint take_bytes (n : nat) (s : string) : string :=
  match n, s with
  | S k, String c s' => String c (take_bytes k s')
  | _, _ => EmptyString
  end.

(** The longest prefix of decimal digits, and what follows it. *)
Fixpoint span_digits (s : string) : string * string :=
  match s with
  | String c s' =>
      if is_digit c then let '(d, r) := span_digits s' in (String c d, r)
      else (EmptyString, s)
  | EmptyString => (EmptyString, EmptyString)
  end.

Definition hex_value (c : ascii) : option Z :=
  if between 48 57 c then Some (code c - 48)%Z
  else if between 97 102 c then Some (code c - 87)%Z
  else if between 65 70 c then Some (code c - 55)%Z
  else None.

(** Four hexadecimal digits ([getu4], after the backslash and the u). *)
Definition hex4 (s : string) : option Z :=
  match s with
  | String a (String b (String c (String d _))) =>
      a' ← hex_value a; b' ← hex_value b; c' ← hex_value c; d' ← hex_value d;
      Some (4096 * a' + 256 * b' + 16 * c' + d')%Z
  | _ => None
  end.

(** [utf8.EncodeRune] for a code point below 0x110000 that is no surrogate. *)
Definition utf8_encode (r : Z) : string :=
  if decide (r < 128)%Z then String (chr r) ""
  else if decide (r < 2048)%Z then
    String (chr (192 + r / 64)) (String (chr (128 + r mod 64)) "")
  else if decide (r < 65536)%Z then
    String (chr (224 + r / 4096))
      (String (chr (128 + (r / 64) mod 64)) (String (chr (128 + r mod 64)) ""))
  else
    String (chr (240 + r / 262144))
      (String (chr (128 + (r / 4096) mod 64))
         (String (chr (128 + (r / 64) mod 64)) (String (chr (128 + r mod 64)) ""))).

(** U+FFFD, what the decoder writes for an invalid byte or surrogate. *)
Definition replacement_char : string := utf8_encode 65533.

Definition flush_surrogate (pending : option Z) : string :=
  match pending with Some _ => replacement_char | None => "" end.

(** The contents of a string literal, read after its opening quote, and what
    follows the closing quote ([unquote] together with the scanner's checks).
    [pending] is a high surrogate read from a \u escape and not yet paired. *)
Fixpoint unquote (fuel : nat) (pending : option Z) (s : string)
    : option (string * string) :=
  match fuel with
  | O => None
  | S f =>
      let emit (out rest : string) :=
        '(t, r) ← unquote f None rest;
        Some (flush_surrogate pending +:+ out +:+ t, r) in
      match s with
      | EmptyString => None
      | String c s' =>
          if decide (code c = 34)%Z then Some (flush_surrogate pending, s')
          else if decide (code c < 32)%Z then None
          else if decide (code c = 92)%Z then
            match s' with
            | String e s'' =>
                if decide (code e = 117)%Z then
                  rr ← hex4 s'';
                  let rest := drop_bytes 4 s'' in
                  if decide (55296 ≤ rr < 56320)%Z then
                    '(t, r) ← unquote f (Some rr) rest;
                    Some (flush_surrogate pending +:+ t, r)
                  else if decide (56320 ≤ rr < 57344)%Z then
                    match pending with
                    | Some hi =>
                        '(t, r) ← unquote f None rest;
                        Some (utf8_encode
                                (65536 + (hi - 55296) * 1024 + (rr - 56320))
                              +:+ t, r)
                    | None => emit replacement_char rest
                    end
                  else emit (utf8_encode rr) rest
                else
                  let plain (n : Z) := emit (String (chr n) "") s'' in
                  if decide (code e = 34 ∨ code e = 92 ∨ code e = 47)%Z
                  then emit (String e "") s''
                  else if decide (code e = 98)%Z then plain 8%Z
                  else if decide (code e = 102)%Z then plain 12%Z
                  else if decide (code e = 110)%Z then plain 10%Z
                  else if decide (code e = 114)%Z then plain 13%Z
                  else if decide (code e = 116)%Z then plain 9%Z
                  else None
            | EmptyString => None
            end
          else if decide (code c < 128)%Z then emit (String c "") s'
          else
            match utf8_sequence s with
            | O => emit replacement_char s'
            | n => emit (take_bytes n s) (drop_bytes n s)
            end
      end
  end.

(** A number literal at the head of [s]: an optional minus sign; an integer
    part that is 0 or starts with a non-zero digit; optionally a dot and one
    or more digits; optionally e or E, a sign and one or more digits. *)
Definition scan_number (s : string) : option (string * string) :=
  let '(sign, s1) :=
    match s with
    | String c r => if decide (code c = 45)%Z then ("-", r) else ("", s)
    | _ => ("", s)
    end in
  let '(int, s2) := span_digits s1 in
  if decide (int = "") then None
  else if bool_decide (has_prefix "0" int ∧ int ≠ "0") then None
  else
    frac ← match s2 with
           | String c r =>
               if decide (code c = 46)%Z then
                 let '(d, r') := span_digits r in
                 if decide (d = "") then None else Some ("." +:+ d, r')
               else Some ("", s2)
           | _ => Some ("", s2)
           end;
    let '(fr, s3) := frac in
    exp ← match s3 with
          | String c r =>
              if decide (code c = 101 ∨ code c = 69)%Z then
                let '(sg, r1) :=
                  match r with
                  | String d r' =>
                      if decide (code d = 43 ∨ code d = 45)%Z
                      then (String d "", r') else ("", r)
                  | _ => ("", r)
                  end in
                let '(d, r2) := span_digits r1 in
                if decide (d = "") then None
                else Some (String c "" +:+ sg +:+ d, r2)
              else Some ("", s3)
          | _ => Some ("", s3)
          end;
    let '(ex, s4) := exp in
    Some (sign +:+ int +:+ fr +:+ ex, s4).

(** Containers nest at most this deep ([maxNestingDepth]). *)
Definition maxNestingDepth : Z := 10000.

(** One JSON value at the head of [s] (leading white space skipped) and the
    rest of the input; [depth] counts the containers that are open. *)
Fixpoint parse_value (fuel : nat) (depth : Z) (s : string) {struct fuel}
    : option (json * string) :=
  match fuel with
  | O => None
  | S f =>
      match skip_space s with
      | EmptyString => None
      | String c r as s0 =>
          if decide (code c = 123)%Z then
            if decide (maxNestingDepth ≤ depth)%Z then None
            else match skip_space r with
                 | String d r' =>
                     if decide (code d = 125)%Z then Some (JObj [], r')
                     else '(ms, rest) ← parse_members f (depth + 1) r;
                          Some (JObj ms, rest)
                 | EmptyString => None
                 end
          else if decide (code c = 91)%Z then
            if decide (maxNestingDepth ≤ depth)%Z then None
            else match skip_space r with
                 | String d r' =>
                     if decide (code d = 93)%Z then Some (JArr [], r')
                     else '(xs, rest) ← parse_elems f (depth + 1) r;
                          Some (JArr xs, rest)
                 | EmptyString => None
                 end
          else if decide (code c = 34)%Z then
            '(str, rest) ← unquote (S (String.length r)) None r;
            Some (JStr str, rest)
          else if has_prefix "true" s0 then Some (JBool true, drop_bytes 4 s0)
          else if has_prefix "false" s0 then Some (JBool false, drop_bytes 5 s0)
          else if has_prefix "null" s0 then Some (JNull, drop_bytes 4 s0)
          else '(lit, rest) ← scan_number s0; Some (JNum lit, rest)
      end
  end
(** The elements of an array after its opening bracket, up to and including
    the closing bracket (at least one element). *)
with parse_elems (fuel : nat) (depth : Z) (s : string) {struct fuel}
    : option (list json * string) :=
  match fuel with
  | O => None
  | S f =>
      '(v, r) ← parse_value f depth s;
      match skip_space r with
      | String c r' =>
          if decide (code c = 44)%Z then
            '(vs, rest) ← parse_elems f depth r'; Some (v :: vs, rest)
          else if decide (code c = 93)%Z then Some ([v], r')
          else None
      | EmptyString => None
      end
  end
(** The members of an object after its opening brace, up to and including the
    closing brace (at least one member). *)
with parse_members (fuel : nat) (depth : Z) (s : string) {struct fuel}
    : option (list (string * json) * string) :=
  match fuel with
  | O => None
  | S f =>
      match skip_space s with
      | String q r =>
          if decide (code q = 34)%Z then
            '(key, r1) ← unquote (S (String.length r)) None r;
            match skip_space r1 with
            | String colon r2 =>
                if decide (code colon = 58)%Z then
                  '(v, r3) ← parse_value f depth r2;
                  match skip_space r3 with
                  | String c r4 =>
                      if decide (code c = 44)%Z then
                        '(ms, rest) ← parse_members f depth r4;
                        Some ((key, v) :: ms, rest)
                      else if decide (code c = 125)%Z then Some ([(key, v)], r4)
                      else None
                  | EmptyString => None
                  end
                else None
            | EmptyString => None
            end
          else None
      | EmptyString => None
      end
  end.

(** A whole document: one value, white space around it, nothing else
    ([checkValid]). *)
Definition json_parse (data : string) : option json :=
  '(v, rest) ← parse_value (2 * String.length data + 4) 0 data;
  if decide (skip_space rest = "") then Some v else None.

(** ** encoding/json: decoding into a [TokenRecord] *)

Inductive field :=
| FAccessToken | FAccessTokenExpire | FRefreshToken | FRefreshTokenExpire | FIdToken.

Definition field_name (f : field) : string :=
  match f with
  | FAccessToken => "access_token"
  | FAccessTokenExpire => "expires_in"
  | FRefreshToken => "refresh_token"
  | FRefreshTokenExpire => "refresh_expires_in"
  | FIdToken => "id_token"
  end.

Inductive go_type := TString | TInt64.

Definition field_type (f : field) : go_type :=
  match f with
  | FAccessTokenExpire | FRefreshTokenExpire => TInt64
  | _ => TString
  end.

Definition type_name (t : go_type) : string :=
  match t with TString => "string" | TInt64 => "int64" end.

Definition fields : list field :=
  [FAccessToken; FAccessTokenExpire; FRefreshToken; FRefreshTokenExpire; FIdToken].

(** Case folding of a member name ([foldName]): ASCII letters become upper
    case; the two non-ASCII characters that fold to an ASCII letter, U+017F
    and U+212A, become S and K. *)
Fixpoint fold_name (s : string) : string :=
  match s with
  | EmptyString => EmptyString
  | String a r =>
      if between 97 122 a then String (chr (code a - 32)) (fold_name r)
      else
        match r with
        | String b r1 =>
            if decide (code a = 197 ∧ code b = 191)%Z then String (chr 83) (fold_name r1)
            else
              match r1 with
              | String c r2 =>
                  if decide (code a = 226 ∧ code b = 132 ∧ code c = 170)%Z
                  then String (chr 75) (fold_name r2)
                  else String a (fold_name r)
              | EmptyString => String a (fold_name r)
              end
        | EmptyString => String a EmptyString
        end
  end.

Fixpoint first_field (p : field → bool) (fs : list field) : option field :=
  match fs with
  | [] => None
  | f :: fs' => if p f then Some f else first_field p fs'
  end.

(** The field a member name selects: the one tagged with exactly that name,
    failing that the one whose tag equals it up to case folding. *)
Definition find_field (key : string) : option field :=
  match first_field (λ f, bool_decide (field_name f = key)) fields with
  | Some f => Some f
  | None => first_field (λ f, bool_decide (fold_name (field_name f) = fold_name key)) fields
  end.

Fixpoint digits_value (acc : Z) (s : string) : option Z :=
  match s with
  | EmptyString => Some acc
  | String c s' =>
      if is_digit c then digits_value (10 * acc + (code c - 48))%Z s' else None
  end.

(** [strconv.ParseInt(lit, 10, 64)] on a JSON number literal. *)
Definition parse_int64 (lit : string) : option Z :=
  let '(neg, ds) :=
    match lit with
    | String c r => if decide (code c = 45)%Z then (true, r) else (false, lit)
    | _ => (false, lit)
    end in
  if decide (ds = "") then None
  else
    n ← digits_value 0 ds;
    let v := if neg then (- n)%Z else n in
    if decide (- 2 ^ 63 ≤ v < 2 ^ 63)%Z then Some v else None.

Definition json_kind (v : json) : string :=
  match v with
  | JNull => "null" | JBool _ => "bool" | JNum _ => "number"
  | JStr _ => "string" | JArr _ => "array" | JObj _ => "object"
  end.

Definition field_error (f : field) (what : string) : error :=
  "json: cannot unmarshal " +:+ what +:+ " into Go struct field TokenRecord."
  +:+ field_name f +:+ " of type " +:+ type_name (field_type f).

Definition set_string (f : field) (s : string) (rec : TokenRecord) : TokenRecord :=
  match f with
  | FAccessToken =>
      {| AccessToken := s; AccessTokenExpire := AccessTokenExpire rec;
         RefreshToken := RefreshToken rec;
         RefreshTokenExpire := RefreshTokenExpire rec; IdToken := IdToken rec |}
  | FRefreshToken =>
      {| AccessToken := AccessToken rec; AccessTokenExpire := AccessTokenExpire rec;
         RefreshToken := s;
         RefreshTokenExpire := RefreshTokenExpire rec; IdToken := IdToken rec |}
  | FIdToken =>
      {| AccessToken := AccessToken rec; AccessTokenExpire := AccessTokenExpire rec;
         RefreshToken := RefreshToken rec;
         RefreshTokenExpire := RefreshTokenExpire rec; IdToken := s |}
  | _ => rec
  end.

Definition set_int (f : field) (n : Z) (rec : TokenRecord) : TokenRecord :=
  match f with
  | FAccessTokenExpire =>
      {| AccessToken := AccessToken rec; AccessTokenExpire := n;
         RefreshToken := RefreshToken rec;
         RefreshTokenExpire := RefreshTokenExpire rec; IdToken := IdToken rec |}
  | FRefreshTokenExpire =>
      {| AccessToken := AccessToken rec; AccessTokenExpire := AccessTokenExpire rec;
         RefreshToken := RefreshToken rec;
         RefreshTokenExpire := n; IdToken := IdToken rec |}
  | _ => rec
  end.

(** Storing one member value into the field it selects.  [null] leaves a
    string or integer field as it is; a value of another JSON type, or a
    number that is no 64-bit integer, is an error and changes nothing. *)
Definition store_field (f : field) (v : json) (rec : TokenRecord)
    : TokenRecord * option error :=
  match v with
  | JNull => (rec, None)
  | _ =>
      match field_type f, v with
      | TString, JStr s => (set_string f s rec, None)
      | TInt64, JNum lit =>
          match parse_int64 lit with
          | Some n => (set_int f n rec, None)
          | None => (rec, Some (field_error f ("number " +:+ lit)))
          end
      | _, _ => (rec, Some (field_error f (json_kind v)))
      end
  end.

(** The members of an object in order: members that select no field are
    skipped, a later member overwrites an earlier one; decoding goes on after
    an error and the first error is the one reported. *)
Fixpoint decode_members (ms : list (string * json)) (rec : TokenRecord)
    (saved : option error) : TokenRecord * option error :=
  match ms with
  | [] => (rec, saved)
  | (key, v) :: ms' =>
      match find_field key with
      | None => decode_members ms' rec saved
      | Some f =>
          let '(rec', err) := store_field f v rec in
          decode_members ms' rec' (match saved with Some e => Some e | None => err end)
      end
  end.

Definition decode_value (v : json) (rec : TokenRecord) : TokenRecord * option error :=
  match v with
  | JNull => (rec, None)
  | JObj ms => decode_members ms rec None
  | _ => (rec, Some ("json: cannot unmarshal " +:+ json_kind v
                     +:+ " into Go value of type main.TokenRecord"))
  end.

(** [json.Unmarshal(data, &rec)]: the record after the call and the error
    returned.  (The text of a syntax error is not reproduced.) *)
Definition json_Unmarshal (data : string) (rec : TokenRecord)
    : TokenRecord * option error :=
  match json_parse data with
  | None => (rec, Some "json: syntax error")
  | Some v => decode_value v rec
  end.

(** ** crypto/tls and net/http values *)

(** A parsed X.509 certificate, identified by its DER bytes. *)
Definition Certificate := string.

(** [tls.Config]: [RootCAs = None] is Go's nil, the host's root CA set. *)
Record tls_Config := {
  RootCAs : option (list Certificate);
  InsecureSkipVerify : bool
}.

Record http_Transport := { TLSClientConfig : tls_Config }.

(** [http.RoundTripper], the interface type of the field [Transport] of a
    client.  [NoRoundTripper] is the nil interface, for which the client uses
    [http.DefaultTransport].  [TransportPtr tr] is an interface that holds a
    [*http.Transport]; the pointer may itself be nil ([None]), which is not
    the nil interface: the client then calls [RoundTrip] on the nil pointer. *)
Inductive RoundTripper :=
| NoRoundTripper
| TransportPtr (tr : option http_Transport).

(** [http.Client]. *)
Record http_Client := { cl_Transport : RoundTripper }.

Record http_Request := {
  Method : string;
  URL : string;
  Header : gmap string (list string)
}.

(** A response as far as the program looks at it: [Body] is what
    [ioutil.ReadAll(resp.Body)] gives. *)
Record http_Response := {
  StatusCode : Z;
  Body : result string
}.

(** [req.Header.Set(key, value)] for a key in canonical form. *)
Definition Header_Set (key value : string) (req : http_Request) : http_Request :=
  {| Method := Method req; URL := URL req;
     Header := <[key := [value]]> (Header req) |}.

(** [req.Header.Get(key)]: the first value, or the empty string. *)
Definition Header_Get (key : string) (req : http_Request) : string :=
  match Header req !! key with
  | Some (v :: _) => v
  | _ => ""
  end.

(** Does a client skip the verification of the server's certificate? *)
Definition client_insecure (c : http_Client) : bool :=
  match cl_Transport c with
  | TransportPtr (Some tr) => InsecureSkipVerify (TLSClientConfig tr)
  | _ => false
  end.

(** [&http.Client{}]. *)
Definition default_client : http_Client := {| cl_Transport := NoRoundTripper |}.

(** ** The process: world, events, computations *)

(** What the process does that can be seen from outside.  A log line is kept
    as the call that wrote it: the format string as it stands in the Go source
    (escape sequences not expanded) and the arguments as text. *)
Inductive event :=
| EvLogf (format : string) (args : list string)   (* log.Printf, log.Fatalf *)
| EvLogln (args : list string)                     (* log.Println *)
| EvLog (args : list string)                       (* log.Fatal *)
| EvPrintln (args : list string)                   (* fmt.Println *)
| EvSleep (d : Z)                                  (* time.Sleep, nanoseconds *)
| EvDo (c : http_Client) (req : http_Request).     (* client.Do *)

Definition is_log (e : event) : bool :=
  match e with
  | EvLogf _ _ | EvLogln _ | EvLog _ | EvPrintln _ => true
  | _ => false
  end.

(** [trace] lists the events newest first. *)
Record World := {
  fs : gmap string node;
  trace : list event
}.

Inductive outcome (A : Type) :=
| Ret (a : A) (w : World)        (* the call returns *)
| Exit (status : Z) (w : World). (* the process terminates *)
Arguments Ret {A} a w.
Arguments Exit {A} status w.

Definition M (A : Type) : Type := World → outcome A.

Definition ret {A} (a : A) : M A := λ w, Ret a w.
Definition bind {A B} (m : M A) (k : A → M B) : M B :=
  λ w, match m w with
       | Ret a w' => k a w'
       | Exit s w' => Exit s w'
       end.

Declare Scope go_scope.
Delimit Scope go_scope with go.
Notation "x ← y ; z" := (bind y (λ x : _, z))
  (at level 20, y at level 100, z at level 200, only parsing) : go_scope.
Notation "' x ← y ; z" := (bind y (λ x : _, z))
  (at level 20, x pattern, y at level 100, z at level 200, only parsing) : go_scope.
Notation "x ;; z" := (bind x (λ _, z))
  (at level 100, z at level 200, only parsing, right associativity) : go_scope.
Open Scope go_scope.

Definition emit (e : event) : M unit :=
  λ w, Ret () {| fs := fs w; trace := e :: trace w |}.
Definition os_Exit {A} (status : Z) : M A := λ w, Exit status w.
Definition read_fs {A} (f : gmap string node → A) : M A := λ w, Ret (f (fs w)) w.

Definition log_Printf (format : string) (args : list string) : M unit :=
  emit (EvLogf format args).
Definition log_Println (args : list string) : M unit := emit (EvLogln args).
Definition fmt_Println (args : list string) : M unit := emit (EvPrintln args).
Definition log_Fatalf {A} (format : string) (args : list string) : M A :=
  emit (EvLogf format args);; os_Exit 1.
Definition log_Fatal {A} (args : list string) : M A :=
  emit (EvLog args);; os_Exit 1.
Definition time_Sleep (d : Z) : M unit := emit (EvSleep d).

Definition when (b : bool) (m : M unit) : M unit := if b then m else ret ().

Definition WriteFile (path data : string) : M (option error) :=
  λ w, match ioutil_WriteFile (fs w) path data with
       | Ok fs' => Ret None {| fs := fs'; trace := trace w |}
       | Err e => Ret (Some e) w
       end.

(** The HTTP exchanges of a trace, newest first. *)
Fixpoint exchanges (t : list event) : list (http_Client * http_Request) :=
  match t with
  | [] => []
  | EvDo c r :: t' => (c, r) :: exchanges t'
  | _ :: t' => exchanges t'
  end.

(** The trace without what is written to the log and to standard output. *)
Definition silent (t : list event) : list event :=
  filter (λ e, is_log e = false) t.

Definition wrap64 (z : Z) : Z := ((z + 2 ^ 63) mod 2 ^ 64 - 2 ^ 63)%Z.

(** What the program takes from the Go standard library without looking
    inside. *)
Record GoLib := {
  (* the certificates [AppendCertsFromPEM] finds in PEM data, in order *)
  pem_certs : string → list Certificate;
  (* the error of [http.NewRequest(method, url, nil)], if any *)
  NewRequest_error : string → string → option error;
  DumpRequestOut : http_Request → result string;
  DumpResponse : http_Response → result string;
  MarshalIndent : TokenRecord → result string;
  (* a request printed by the log package *)
  Sprint_request : http_Request → string;
  (* the link-time [version], [runtime.Version()] and [time.Now()] as printed *)
  build_version : string;
  runtime_Version : string;
  time_Now : string
}.

(** ** The program *)

Section Program.

(** The standard library, the network and the CA bootstrap.  [http_Do]
    answers the newest exchange of the history it is given (client and
    request, newest first).  [LoadCAs] downloads the CERN CA files into
    [~/.certificates] and returns that directory; the renewal code only
    receives its result. *)
Variable lib : GoLib.
Variable http_Do : list (http_Client * http_Request) → result http_Response.
Variable LoadCAs : Z → M (string * option error).

(** [client.Do(req)].  A client whose transport is a nil [*http.Transport]
    panics in [RoundTrip] on the nil pointer before anything is sent, and the
    process ends with status 2.  Any other client makes the exchange. *)
Definition client_Do (c : http_Client) (req : http_Request)
    : M (result http_Response) :=
  match cl_Transport c with
  | TransportPtr None => os_Exit 2
  | _ =>
      λ w, let t := EvDo c req :: trace w in
           Ret (http_Do (exchanges t)) {| fs := fs w; trace := t |}
  end.

(** [http.NewRequest(method, url, nil)]. *)
Definition http_NewRequest (method url : string) : result http_Request :=
  match NewRequest_error lib method url with
  | Some e => Err e
  | None => Ok {| Method := method; URL := url; Header := ∅ |}
  end.

(** [info]. *)
Definition info : string :=
  "git=" +:+ build_version lib +:+ " go=" +:+ runtime_Version lib
  +:+ " date=" +:+ time_Now lib.

(** [ReadToken]: the token is the contents of the file [r] names, newlines
    removed, or [r] itself when there is no such file. *)
Definition ReadToken (r : string) : M string :=
  st ← read_fs (λ fs, os_Stat fs r);
  match st with
  | None =>
      b ← read_fs (λ fs, ioutil_ReadFile fs r);
      match b with
      | Err e => log_Fatalf "Unable to read data from file: %s, error: %s" [r; e]
      | Ok b => ret (strings_Replace b LF "" (-1))
      end
  | Some _ => ret r
  end.

(** [x509.NewCertPool], [AddCert], [AppendCertsFromPEM]. *)
Definition NewCertPool : list Certificate := [].

Definition AddCert (pool : list Certificate) (c : Certificate) : list Certificate :=
  if decide (c ∈ pool) then pool else (pool ++ [c])%list.

Definition AppendCertsFromPEM (pool : list Certificate) (pemCerts : string)
    : list Certificate * bool :=
  if decide (pemCerts = "") then (pool, false)
  else (foldl AddCert pool (pem_certs lib pemCerts),
        bool_decide (pem_certs lib pemCerts ≠ [])).

(** The body of the loop over the directory entries in [Transport]; the
    state is the pool and the flag [certs]. *)
Definition Transport_entry (rootCAs : string) (verbose : Z)
    (st : list Certificate * bool) (name : string) : M (list Certificate * bool) :=
  let fname := rootCAs +:+ "/" +:+ name in
  r ← read_fs (λ fs, ioutil_ReadFile fs fname);
  let caCert := match r with Ok b => b | Err _ => "" end in
  when (match r with Err _ => bool_decide (1 < verbose)%Z | Ok _ => false end)
    (log_Printf "Unable to read %s\n" [fname]);;
  let '(certPool, ok) := AppendCertsFromPEM st.1 caCert in
  when (negb ok && bool_decide (2 < verbose)%Z)
    (log_Printf "invalid PEM format while importing trust-chain: %q" [fname]);;
  when (bool_decide (2 < verbose)%Z) (log_Println ["Load CA file"; fname]);;
  ret (certPool, true).

Fixpoint for_range {A S : Type} (body : S → A → M S) (st : S) (l : list A) : M S :=
  match l with
  | [] => ret st
  | x :: l' => st' ← body st x; for_range body st' l'
  end.

(** [Transport]: the pair [(tr, err)] it returns. *)
Definition Transport (rootCAs : string) (verbose : Z)
    : M (option http_Transport * option error) :=
  files ← read_fs (λ fs, ioutil_ReadDir fs rootCAs);
  match files with
  | Err err =>
      let msg :=
        if decide (rootCAs = "") then "root CAs area is not provided"
        else "Unable to list files in '" +:+ rootCAs +:+ "', error: " +:+ err +:+ LF in
      log_Printf msg [];;
      ret (None, Some msg)
  | Ok files =>
      '(certPool, certs) ←
        for_range (Transport_entry rootCAs verbose) (NewCertPool, false) files;
      let mTLSConfig :=
        if certs then {| RootCAs := Some certPool; InsecureSkipVerify := false |}
        else {| RootCAs := None; InsecureSkipVerify := true |} in
      ret (Some {| TLSClientConfig := mTLSConfig |}, None)
  end.

(** [Renew]. *)
Definition Renew (uri token rootCAs : string) (verbose : Z) : M TokenRecord :=
  t ← ReadToken token;
  when (bool_decide (1 < verbose)%Z)
    (log_Printf "renew %s\ninput token : %s\noutput token: %s\n" [uri; token; t]);;
  req ← match http_NewRequest "GET" uri with
        | Ok req => ret req
        | Err err => log_Fatal [err]
        end;
  let req := Header_Set "Authorization" ("Bearer " +:+ t) req in
  let req := Header_Set "Accept" "application/json" req in
  when (bool_decide (0 < verbose)%Z)
    (match DumpRequestOut lib req with
     | Ok dump => log_Println ["request: "; dump]
     | Err _ => ret ()
     end);;
  '(tr, err) ← Transport rootCAs verbose;
  let client :=
    match err with
    | None => {| cl_Transport := TransportPtr tr |}
    | Some _ => default_client
    end in
  resp ← client_Do client req;
  resp ← match resp with
         | Ok resp =>
             when (bool_decide (1 < verbose)%Z)
               (match DumpResponse lib resp with
                | Ok dump => log_Println ["[DEBUG] response:"; dump]
                | Err _ => ret ()
                end);;
             ret resp
         | Err err =>
             log_Fatal ["Unable to make HTTP request"; Sprint_request lib req; err]
         end;
  data ← match Body resp with
         | Ok data => ret data
         | Err err => log_Fatal [err]
         end;
  let '(rec, err) := json_Unmarshal data zero_record in
  match err with
  | Some err => log_Fatal [err]
  | None => ret rec
  end.

(** [printRecord]. *)
Definition printRecord (rec : TokenRecord) (verbose : Z) : M unit :=
  when (bool_decide (0 < verbose)%Z)
    (match MarshalIndent lib rec with
     | Ok data => log_Printf "New token record:\n%s" [data]
     | Err err => log_Println ["Unable to marshal record"; err]
     end).

(** The command line, after [flag.Parse]. *)
Record Flags := {
  f_version : bool;
  f_verbose : Z;
  f_token : string;
  f_out : string;
  f_url : string;
  f_rootCAs : string;
  f_interval : Z
}.

(** Writing the access token to [out], as [main] does after each renewal
    (after the first one and, in the same words, in the loop). *)
Definition write_out (out : string) (rec : TokenRecord) : M unit :=
  if decide (out ≠ "") then
    err ← WriteFile out (AccessToken rec);
    match err with
    | Some err => log_Fatalf "Unable to write, file: %s, error: %v\n" [out; err]
    | None => ret ()
    end
  else ret ().

(** One turn of the daemon loop of [main]: [rec] is the record in memory
    when the turn starts, the result the record it leaves. *)
Definition daemon_turn (rurl out rootCAs : string) (verbose interval : Z)
    (rec : TokenRecord) : M TokenRecord :=
  let d := wrap64 (wrap64 interval * 1000000000) in
  time_Sleep d;;
  let rtoken := RefreshToken rec in
  rec ← Renew rurl rtoken rootCAs verbose;
  write_out out rec;;
  printRecord rec verbose;;
  ret rec.

(** The first [n] turns of the loop, which has no exit of its own. *)
Fixpoint daemon (n : nat) (rurl out rootCAs : string) (verbose interval : Z)
    (rec : TokenRecord) : M TokenRecord :=
  match n with
  | O => ret rec
  | S k =>
      rec' ← daemon_turn rurl out rootCAs verbose interval rec;
      daemon k rurl out rootCAs verbose interval rec'
  end.

(** How a run of [main] stands when the model stops following it, and the
    record it holds in memory then. *)
Inductive run_state :=
| Returned (rec : TokenRecord)   (* [main] returned: exit status 0 *)
| Looping (rec : TokenRecord).   (* still in the daemon loop *)


(** [main], the daemon loop followed for [n] turns. *)
Definition main (n : nat) (f : Flags) : M run_state :=
  if f_version f then fmt_Println [info];; os_Exit 0
  else
    let verbose := f_verbose f in
    rootCAs ← (if decide (f_rootCAs f = "") then
                 '(dir, err) ← LoadCAs verbose;
                 match err with
                 | Some err => log_Fatalf "unable to load CERN CAs: %v" [err]
                 | None => ret dir
                 end
               else ret (f_rootCAs f));
    when (bool_decide (0 < verbose)%Z) (fmt_Println ["Read CERN CAs from"; rootCAs]);;
    let rurl := f_url f +:+ "/token/renew" in
    rec ← Renew rurl (f_token f) rootCAs verbose;
    write_out (f_out f) rec;;
    printRecord rec verbose;;
    if bool_decide (0 < f_interval f)%Z then
      rec ← daemon n rurl (f_out f) rootCAs verbose (f_interval f) rec;
      ret (Looping rec)
    else ret (Returned rec).

End Program.

(** ** The CA bootstrap *)

(** [split_scan sep skip s]: the pieces of [s] between the non-overlapping
    occurrences of the non-empty [sep], leftmost first; [skip] is the number
    of bytes of the occurrence just found that are still to be dropped. *)
Fixpoint split_scan (sep : string) (skip : nat) (s : string) : list string :=
  match s with
  | EmptyString => [EmptyString]
  | String c s' =>
      match skip with
      | S k => split_scan sep k s'
      | O =>
          if has_prefix sep s
          then EmptyString :: split_scan sep (String.length sep - 1) s'
          else match split_scan sep 0 s' with
               | piece :: pieces => String c piece :: pieces
               | [] => [String c EmptyString]
               end
      end
  end.

(** [explode_scan copy s]: [s] cut into its runes; [copy] is the number of
    bytes of the current rune still to be copied (0 at a rune boundary). *)
Fixpoint explode_scan (copy : nat) (s : string) : list string :=
  match s with
  | EmptyString => []
  | String c s' =>
      match (match copy with O => rune_width s | _ => copy end) with
      | S (S k) =>
          match explode_scan (S k) s' with
          | piece :: pieces => String c piece :: pieces
          | [] => [String c EmptyString]
          end
      | _ => String c EmptyString :: explode_scan 0 s'
      end
  end.

(** [strings.Split(s, sep)]. *)
Definition strings_Split (s sep : string) : list string :=
  if decide (sep = "") then explode_scan 0 s else split_scan sep 0 s.

(** The first loop of [LoadCAs]: the home directory read from the
    environment, or the run-time panic of [value[1]] on an entry that is the
    bare name HOME. *)
Inductive home_result :=
| Home (homeDir : string)
| HomePanic.

Fixpoint find_home (environ : list string) : home_result :=
  match environ with
  | [] => Home ""
  | item :: rest =>
      match strings_Split item "=" with
      | value0 :: values =>
          if decide (value0 = "HOME") then
            match values with
            | value1 :: _ => Home value1
            | [] => HomePanic
            end
          else find_home rest
      | [] => HomePanic
      end
  end.

(** [links] in [LoadCAs]. *)
Definition links : list string :=
  ["https://cafiles.cern.ch/cafiles/certificates/CERN%20Certification%20Authority.crt";
   "https://cafiles.cern.ch/cafiles/certificates/CERN%20Certification%20Authority(1).crt";
   "https://cafiles.cern.ch/cafiles/certificates/CERN%20Root%20Certification%20Authority%202.crt";
   "https://cafiles.cern.ch/cafiles/certificates/CERN%20Grid%20Certification%20Authority.crt"].

(** [os.Mkdir(p, 0777)], for a path that does not end in a slash (the
    program makes one directory, whose name ends in [.certificates]). *)
Definition os_Mkdir (fs : gmap string node) (p : string) : result (gmap string node) :=
  if decide (p = "") then Err "mkdir : no such file or directory"
  else match fs !! p with
       | None => create_entry "mkdir" fs p (Dir [] true)
       | Some Unreachable => Err ("mkdir " +:+ p +:+ ": no such file or directory")
       | Some _ => Err ("mkdir " +:+ p +:+ ": file exists")
       end.

Definition Mkdir (p : string) : M (option error) :=
  λ w, match os_Mkdir (fs w) p with
       | Ok fs' => Ret None {| fs := fs'; trace := trace w |}
       | Err e => Ret (Some e) w
       end.

(** The file [LoadCAs] keeps a link in: the last piece of the link between
    slashes, under [homeDir/.certificates]. *)
Definition link_file (homeDir link : string) : string :=
  homeDir +:+ "/.certificates/" +:+ List.last (strings_Split link "/") "".

Section Bootstrap.

Variable lib : GoLib.
Variable http_Do : list (http_Client * http_Request) → result http_Response.

(** [http.Get(url)]: a GET built by [http.NewRequest] and sent with the
    default client. *)
Definition http_Get (url : string) : M (result http_Response) :=
  match http_NewRequest lib "GET" url with
  | Err err => ret (Err err)
  | Ok req => client_Do http_Do default_client req
  end.

(** The body of the loop over [links] in [LoadCAs]; [Some err] is the
    [return dname, err] that leaves the loop. *)
Definition LoadCAs_link (homeDir : string) (verbose : Z) (link : string)
    : M (option error) :=
  let fname := link_file homeDir link in
  st ← read_fs (λ fs, os_Stat fs fname);
  match st with
  | None => ret None
  | Some _ =>
      when (bool_decide (0 < verbose)%Z) (fmt_Println ["download"; link]);;
      resp ← http_Get link;
      match resp with
      | Err err => ret (Some err)
      | Ok resp =>
          match Body resp with
          | Err err => ret (Some err)
          | Ok data => WriteFile fname data
          end
      end
  end.

Fixpoint LoadCAs_links (homeDir dname : string) (verbose : Z) (ls : list string)
    : M (string * option error) :=
  match ls with
  | [] => ret (dname, None)
  | link :: ls' =>
      err ← LoadCAs_link homeDir verbose link;
      match err with
      | Some err => ret (dname, Some err)
      | None => LoadCAs_links homeDir dname verbose ls'
      end
  end.

(** [LoadCAs], for the environment [environ] that [os.Environ] returns.  (On
    the panic the process ends with status 2; what the run time writes to
    standard error then is not recorded.) *)
Definition LoadCAs (environ : list string) (verbose : Z) : M (string * option error) :=
  match find_home environ with
  | HomePanic => os_Exit 2
  | Home homeDir =>
      let dname := homeDir +:+ "/.certificates" in
      st ← read_fs (λ fs, os_Stat fs dname);
      (match st with
       | Some _ => Mkdir dname;; ret ()
       | None => ret ()
       end);;
      LoadCAs_links homeDir dname verbose links
  end.

End Bootstrap.

(** ** Observations *)

Definition outcome_world {A} (o : outcome A) : World :=
  match o with Ret _ w | Exit _ w => w end.

(** What can be observed of an outcome apart from the log: the value returned
    or the exit status, the file system, and the trace without log lines. *)
Definition observable {A} (o : outcome A) : (A + Z) * gmap string node * list event :=
  match o with
  | Ret a w => (inl a, fs w, silent (trace w))
  | Exit s w => (inr s, fs w, silent (trace w))
  end.


(** [logged w w']: [w'] is [w] after some lines were written to the log or
    to standard output, and nothing else happened. *)
Inductive logged (w : World) : World → Prop :=
| logged_same : logged w {| fs := fs w; trace := trace w |}
| logged_line f t e :
    logged w {| fs := f; trace := t |} → is_log e = true →
    logged w {| fs := f; trace := e :: t |}.

(** A computation that only writes to the log. *)
Definition log_only (m : M unit) : Prop :=
  ∀ w, ∃ w', m w = Ret () w' ∧ logged w w'.

(** ** What the trust store builder computes *)

(** The bytes [Transport] passes to [AppendCertsFromPEM] for an entry: the
    file's contents, or nothing when the file cannot be read. *)
Definition entry_data (fs : gmap string node) (rootCAs name : string) : string :=
  match ioutil_ReadFile fs (rootCAs +:+ "/" +:+ name) with
  | Ok b => b
  | Err _ => ""
  end.

(** The pool after the entries [files] were offered to it in order. *)
Definition pool_after (lib : GoLib) (fs : gmap string node) (rootCAs : string)
    (pool : list Certificate) (files : list string) : list Certificate :=
  foldl (λ p name, (AppendCertsFromPEM lib p (entry_data fs rootCAs name)).1)
    pool files.

(** A file's contents are a valid PEM certificate file when
    [AppendCertsFromPEM] reports that it found a certificate in them. *)
Definition valid_pem (lib : GoLib) (data : string) : bool :=
  (AppendCertsFromPEM lib NewCertPool data).2.

(** The TLS configuration [Transport] builds from a directory listing. *)
Definition listed_config (lib : GoLib) (fs : gmap string node) (rootCAs : string)
    (files : list string) : tls_Config :=
  if files is [] then {| RootCAs := None; InsecureSkipVerify := true |}
  else {| RootCAs := Some (pool_after lib fs rootCAs NewCertPool files);
          InsecureSkipVerify := false |}.

(** The message of the error [Transport] returns for a directory it cannot
    list. *)
Definition unlisted_message (rootCAs : string) (err : error) : string :=
  if decide (rootCAs = "") then "root CAs area is not provided"
  else "Unable to list files in '" +:+ rootCAs +:+ "', error: " +:+ err +:+ LF.

(** The pair [Transport] returns, computed from the file system alone. *)
Definition Transport_value (lib : GoLib) (fs : gmap string node) (rootCAs : string)
    : option http_Transport * option error :=
  match ioutil_ReadDir fs rootCAs with
  | Ok files => (Some {| TLSClientConfig := listed_config lib fs rootCAs files |}, None)
  | Err err => (None, Some (unlisted_message rootCAs err))
  end.

(** ** What the renewal client computes *)

(** The request [Renew] builds for the resolved token [t]. *)
Definition renew_request (req0 : http_Request) (t : string) : http_Request :=
  Header_Set "Accept" "application/json"
    (Header_Set "Authorization" ("Bearer " +:+ t) req0).

(** The client [Renew] uses: the transport [Transport] built, or the
    default client when [Transport] returned an error. *)
Definition renew_client (lib : GoLib) (fs : gmap string node) (rootCAs : string)
    : http_Client :=
  match Transport_value lib fs rootCAs with
  | (tr, None) => {| cl_Transport := TransportPtr tr |}
  | (_, Some _) => default_client
  end.

(** What [Renew] makes of the answer to its request: the record, or
    nothing when it terminates the process. *)
Definition renew_result (r : result http_Response) : option TokenRecord :=
  match r with
  | Ok resp =>
      match Body resp with
      | Ok data =>
          match json_Unmarshal data zero_record with
          | (rec, None) => Some rec
          | (_, Some _) => None
          end
      | Err _ => None
      end
  | Err _ => None
  end.

(** What can be observed of a run of [Renew] apart from the log, computed
    without the verbosity. *)
Definition Renew_observable (lib : GoLib)
    (http_Do : list (http_Client * http_Request) → result http_Response)
    (uri token rootCAs : string) (w : World)
    : (TokenRecord + Z) * gmap string node * list event :=
  match ReadToken token w with
  | Exit s w1 => (inr s, fs w1, silent (trace w1))
  | Ret t _ =>
      match http_NewRequest lib "GET" uri with
      | Err _ => (inr 1%Z, fs w, silent (trace w))
      | Ok req0 =>
          let c := renew_client lib (fs w) rootCAs in
          let req := renew_request req0 t in
          (match renew_result (http_Do ((c, req) :: exchanges (trace w))) with
           | Some rec => inl rec
           | None => inr 1%Z
           end,
           fs w, EvDo c req :: silent (trace w))
      end
  end.

(** The network [http_Do] with the status code of every answer replaced by
    [status]. *)
Definition with_status (status : Z)
    (http_Do : list (http_Client * http_Request) → result http_Response)
    (history : list (http_Client * http_Request)) : result http_Response :=
  match http_Do history with
  | Ok resp => Ok {| StatusCode := status; Body := Body resp |}
  | Err err => Err err
  end.

(** A JSON number literal that is no 64-bit integer: a decimal integer
    below -2^63 or above 2^63 - 1, or a literal with a fraction or an
    exponent. *)
Definition no_int64 (lit : string) : Prop :=
  (∃ ds n, digits_value 0 ds = Some n
           ∧ ((lit = ds ∧ 2 ^ 63 ≤ n) ∨ (lit = String (chr 45) ds ∧ 2 ^ 63 < n))%Z)
  ∨ occurs "."%char lit = true
  ∨ occurs "e"%char lit = true
  ∨ occurs "E"%char lit = true.

(** The upper-case form of an ASCII letter; any other byte as it is. *)
Definition upper (a : ascii) : ascii :=
  if between 97 122 a then chr (code a - 32) else a.

Fixpoint map_upper (s : string) : string :=
  match s with
  | EmptyString => EmptyString
  | String a s' => String (upper a) (map_upper s')
  end.

(** Two bytes that are the same, or the same ASCII letter in the two cases. *)
Definition same_letter (a b : ascii) : bool :=
  bool_decide (a = b)
  || (between 65 90 a && bool_decide (code b = code a + 32)%Z)
  || (between 97 122 a && bool_decide (code b = code a - 32)%Z).

(** Two strings of the same length that differ at most in the case of ASCII
    letters. *)
Fixpoint equal_up_to_case (s t : string) : bool :=
  match s, t with
  | EmptyString, EmptyString => true
  | String a s', String b t' => same_letter a b && equal_up_to_case s' t'
  | _, _ => false
  end.

(** Every byte of the string is below 128. *)
Fixpoint all_ascii (s : string) : bool :=
  match s with
  | EmptyString => true
  | String a s' => bool_decide (code a < 128)%Z && all_ascii s'
  end.

(** [w'] has the file system of [w] except, possibly, at the path [out] and,
    when [out] was made, in the listing of the directory it was made in, which
    has gained its name.  If [out] was there already, nothing else differs. *)
Definition touches_only (out : string) (w w' : World) : Prop :=
  (out = "" → fs w' = fs w)
  ∧ (fs w !! out ≠ None →
     fs w' !! out ≠ None ∧ ∀ p, p ≠ out → fs w' !! p = fs w !! p)
  ∧ ∀ p, p ≠ out →
      fs w' !! p = fs w !! p
      ∨ (p = dirname out
         ∧ ∃ names listable,
             fs w !! p = Some (Dir names listable)
             ∧ fs w' !! p = Some (Dir (add_name (basename out) names) listable)).

(** A computation whose outcome, a return or an exit, always leaves a world
    related by [R] to the one it started in. *)
Definition keeps {A} (R : World → World → Prop) (m : M A) : Prop :=
  ∀ w, R w (outcome_world (m w)).

(** The part of the trace that is neither log nor standard output, for a main
    loop that made the requests [turns] (newest first) after the request
    [first], sleeping [d] before each of them. *)
Definition schedule (d : Z) (first : http_Client * http_Request)
    (turns : list (http_Client * http_Request)) : list event :=
  (flat_map (λ x, [EvDo x.1 x.2; EvSleep d]) turns ++ [EvDo first.1 first.2])%list.

(** A request of the CA bootstrap: a plain GET of one of the links, without
    headers, sent with the default client. *)
Definition ca_download (x : http_Client * http_Request) : Prop :=
  x.1 = default_client ∧ Method x.2 = "GET" ∧ URL x.2 ∈ links ∧ Header x.2 = ∅.

(** The paths the CA bootstrap makes: the certificate directory and the file
    of each link. *)
Definition bootstrap_path (homeDir p : string) : Prop :=
  p = homeDir +:+ "/.certificates" ∨ ∃ link, link ∈ links ∧ p = link_file homeDir link.

(** What the CA bootstrap may do to the world.  A file that existed keeps
    its contents and permissions, and nothing is removed; a directory keeps
    its flag, and its listing can only gain names of entries the bootstrap
    makes in it.  A path can only appear as the certificate directory or as
    the file of a link.  The requests added are CA downloads. *)
Definition bootstrap_step (homeDir : string) (w w' : World) : Prop :=
  (∀ q nd, fs w !! q = Some nd →
     match nd with
     | Dir names listable =>
         ∃ names', fs w' !! q = Some (Dir names' listable)
                   ∧ names ⊆ names'
                   ∧ ∀ x, x ∈ names' →
                       x ∈ names
                       ∨ ∃ p, bootstrap_path homeDir p ∧ q = dirname p ∧ x = basename p
     | _ => fs w' !! q = Some nd
     end)
  ∧ (∀ q, fs w !! q = None →
       fs w' !! q = None
       ∨ (q = homeDir +:+ "/.certificates"
          ∧ ∃ names, fs w' !! q = Some (Dir names true))
       ∨ (∃ link data, link ∈ links ∧ q = link_file homeDir link
                       ∧ fs w' !! q = Some (File data true true)))
  ∧ ∃ new, exchanges (trace w') = (new ++ exchanges (trace w))%list
           ∧ Forall ca_download new.

(** ** What the decoder accepts *)

#[global] Instance field_eq_dec : EqDecision field.
Proof. solve_decision. Defined.

(** The value of a field of the record. *)
Inductive field_value :=
| VString (s : string)
| VInt (n : Z).

Definition get_field (f : field) (rec : TokenRecord) : field_value :=
  match f with
  | FAccessToken => VString (AccessToken rec)
  | FAccessTokenExpire => VInt (AccessTokenExpire rec)
  | FRefreshToken => VString (RefreshToken rec)
  | FRefreshTokenExpire => VInt (RefreshTokenExpire rec)
  | FIdToken => VString (IdToken rec)
  end.

Definition zero_value (f : field) : field_value :=
  match field_type f with
  | TString => VString ""
  | TInt64 => VInt 0
  end.

(** A member value the field [f] can take: [null], a string for a string
    field, an integer literal in the 64-bit range for an integer field. *)
Definition fits (f : field) (v : json) : bool :=
  match v, field_type f with
  | JNull, _ => true
  | JStr _, TString => true
  | JNum lit, TInt64 => if parse_int64 lit is Some _ then true else false
  | _, _ => false
  end.

(** Every member that selects a field has a value the field can take. *)
Definition members_fit (ms : list (string * json)) : bool :=
  forallb (λ m, match find_field m.1 with Some f => fits f m.2 | None => true end) ms.

(** The documents [json.Unmarshal] decodes into a [TokenRecord] without an
    error: [null], and the objects whose members fit. *)
Definition accepted (v : json) : bool :=
  match v with
  | JNull => true
  | JObj ms => members_fit ms
  | _ => false
  end.

(** Some member of the object selects the field [f]. *)
Definition selects (f : field) (ms : list (string * json)) : bool :=
  existsb (λ m, bool_decide (find_field m.1 = Some f)) ms.

(** A field no member of the document selects. *)
Definition absent (f : field) (v : json) : bool :=
  match v with
  | JObj ms => negb (selects f ms)
  | _ => true
  end.

(** ** A concrete environment *)

(** Test documents are written with apostrophes in place of double quotes. *)
Fixpoint json_text (s : string) : string :=
  match s with
  | EmptyString => EmptyString
  | String c s' =>
      String (if decide (code c = 39)%Z then chr 34 else c) (json_text s')
  end.

(** A stand-in for the standard library: PEM data is recognised by its first
    line, a URL with a line break in it is rejected. *)
Definition demo_lib : GoLib := {|
  pem_certs := λ data,
    if has_prefix "-----BEGIN CERTIFICATE-----" data then [data] else [];
  NewRequest_error := λ _ url,
    if occurs (ascii_of_nat 10) url
    then Some "net/url: invalid control character in URL" else None;
  DumpRequestOut := λ req, Ok (Method req +:+ " " +:+ URL req);
  DumpResponse := λ resp, match Body resp with Ok b => Ok b | Err e => Err e end;
  MarshalIndent := λ rec, Ok (AccessToken rec);
  Sprint_request := λ req, Method req +:+ " " +:+ URL req;
  build_version := "0000000";
  runtime_Version := "go1.x";
  time_Now := "2020-01-01 00:00:00"
|}.

(** A renewal endpoint: it knows the tokens T0 and R1, answers the token
    "empty" with an empty object and the token "list" with an empty array, and
    refuses the connection otherwise. *)
Definition demo_server (history : list (http_Client * http_Request))
    : result http_Response :=
  match history with
  | (_, req) :: _ =>
      let auth := Header_Get "Authorization" req in
      if decide (auth = "Bearer T0") then
        Ok {| StatusCode := 200;
              Body := Ok (json_text "{'access_token':'A1','expires_in':120,'refresh_token':'R1','refresh_expires_in':3600,'id_token':'I1'}") |}
      else if decide (auth = "Bearer R1") then
        Ok {| StatusCode := 200;
              Body := Ok (json_text "{'access_token':'A2','expires_in':120,'refresh_token':'R2','refresh_expires_in':3600,'id_token':'I2'}") |}
      else if decide (auth = "Bearer empty") then
        Ok {| StatusCode := 401; Body := Ok "{}" |}
      else if decide (auth = "Bearer list") then
        Ok {| StatusCode := 200; Body := Ok "[]" |}
      else Err "dial tcp: connection refused"
  | [] => Err "no request"
  end.

Definition demo_LoadCAs (verbose : Z) : M (string * option error) :=
  ret ("/home/user/.certificates", None).

Definition demo_fs : gmap string node :=
  list_to_map
    [(".", Dir ["access.token"; "cas"; "junk"; "locked"; "token.txt"] true);
     ("/home/u", Dir [] true);
     ("token.txt", File ("abc" +:+ LF +:+ "def" +:+ LF) true true);
     ("cas", Dir ["ca.pem"; "junk.txt"] true);
     ("cas/ca.pem", File "-----BEGIN CERTIFICATE-----MIIBdemo" true true);
     ("cas/junk.txt", File "not a certificate" true true);
     ("junk", Dir ["junk.txt"] true);
     ("junk/junk.txt", File "not a certificate" true true);
     ("locked", Dir [] false);
     ("access.token", File "stale" true true)].

Definition demo_world : World := {| fs := demo_fs; trace := [] |}.

(** The same world with a file whose name is the refresh token R1. *)
Definition demo_world_R1 : World :=
  {| fs := <["R1" := File "S3" true true]> demo_fs; trace := [] |}.

Definition demo_flags (out : string) : Flags :=
  {| f_version := false; f_verbose := 0; f_token := "T0"; f_out := out;
     f_url := "https://sso.example"; f_rootCAs := "cas"; f_interval := 600 |}.

Definition demo_record : TokenRecord :=
  {| AccessToken := "A1"; AccessTokenExpire := 120; RefreshToken := "R1";
     RefreshTokenExpire := 3600; IdToken := "I1" |}.

(** A renewal endpoint whose answer gives an expiry of 2^63 seconds. *)
Definition demo_overflow_server (history : list (http_Client * http_Request))
    : result http_Response :=
  Ok {| StatusCode := 200;
        Body := Ok (json_text "{'access_token':'A1','expires_in':9223372036854775808}") |}.

(** An environment, a server of CA files that answers every request with a
    certificate naming the URL asked for, and the world after the bootstrap
    has run in it. *)
Definition demo_environ : list string := ["PATH=/bin"; "HOME=/home/u"; "LANG=C"].

Definition demo_ca_server (history : list (http_Client * http_Request))
    : result http_Response :=
  match history with
  | (_, req) :: _ =>
      Ok {| StatusCode := 200;
            Body := Ok ("-----BEGIN CERTIFICATE-----" +:+ URL req) |}
  | [] => Err "no request"
  end.

Definition demo_world_CAs : World :=
  outcome_world (LoadCAs demo_lib demo_ca_server demo_environ 0 demo_world).

(** * Proofs *)

(** ** Checks of the library models *)

Example Replace_first : strings_Replace "a-b-c" "-" "+" 1 = "a+b-c".
Proof. vm_compute. reflexivity. Qed.

Example Replace_longer_pattern : strings_Replace "aXXbXXXc" "XX" "-" (-1) = "a-b-Xc".
Proof. vm_compute. reflexivity. Qed.

Example Replace_empty_pattern : strings_Replace "abc" "" "-" (-1) = "-a-b-c-".
Proof. vm_compute. reflexivity. Qed.

Example Replace_empty_pattern_twice : strings_Replace "abc" "" "-" 2 = "-a-bc".
Proof. vm_compute. reflexivity. Qed.

Example Replace_keeps_carriage_return :
  strings_Replace ("abc" +:+ String (chr 13) LF) LF "" (-1) = "abc" +:+ String (chr 13) "".
Proof. vm_compute. reflexivity. Qed.

Example parse_deep :
  json_parse "[[[[[[[[[[[[[[[[[[[[[[[[[[[[[[[[[[[[[[[[1,2,[3]]]]]]]]]]]]]]]]]]]]]]]]]]]]]]]]]]]]]]]]]"
  ≠ None.
Proof. vm_compute. discriminate. Qed.

Example parse_nested :
  json_parse (json_text " {'a' : [1, 2.5e+3, -0, true, null], 'b':{}} ")
  = Some (JObj [("a", JArr [JNum "1"; JNum "2.5e+3"; JNum "-0"; JBool true; JNull]);
                ("b", JObj [])]).
Proof. vm_compute. reflexivity. Qed.

Example parse_escapes :
  json_parse (json_text "'A\n\/'") = Some (JStr ("A" +:+ LF +:+ "/")).
Proof. vm_compute. reflexivity. Qed.

Example parse_trailing_comma : json_parse "[1,]" = None.
Proof. vm_compute. reflexivity. Qed.

Example parse_leading_zero : json_parse "01" = None.
Proof. vm_compute. reflexivity. Qed.

Example parse_trailing_text : json_parse "{} x" = None.
Proof. vm_compute. reflexivity. Qed.

Example parse_empty_input : json_parse "" = None.
Proof. vm_compute. reflexivity. Qed.

Example find_field_folds_case : find_field "Expires_In" = Some FAccessTokenExpire.
Proof. vm_compute. reflexivity. Qed.

Example find_field_unknown : find_field "token" = None.
Proof. vm_compute. reflexivity. Qed.

Example parse_int64_range :
  parse_int64 "9223372036854775807" = Some 9223372036854775807%Z
  ∧ parse_int64 "9223372036854775808" = None
  ∧ parse_int64 "-9223372036854775808" = Some (-9223372036854775808)%Z
  ∧ parse_int64 "1.0" = None.
Proof. vm_compute. done. Qed.

Example Unmarshal_null : json_Unmarshal "null" zero_record = (zero_record, None).
Proof. vm_compute. reflexivity. Qed.

Example Unmarshal_wrong_type :
  json_Unmarshal (json_text "{'expires_in':'soon','access_token':'A'}") zero_record
  = ({| AccessToken := "A"; AccessTokenExpire := 0; RefreshToken := "";
        RefreshTokenExpire := 0; IdToken := "" |},
     Some "json: cannot unmarshal string into Go struct field TokenRecord.expires_in of type int64").
Proof. vm_compute. reflexivity. Qed.

Example Unmarshal_later_member_wins :
  (json_Unmarshal (json_text "{'id_token':'a','ID_TOKEN':'b','other':[1]}") zero_record).1
  = {| AccessToken := ""; AccessTokenExpire := 0; RefreshToken := "";
       RefreshTokenExpire := 0; IdToken := "b" |}.
Proof. vm_compute. reflexivity. Qed.

Example path_parts :
  (dirname "cas/ca.pem", basename "cas/ca.pem") = ("cas", "ca.pem")
  ∧ (dirname "/x", basename "/x") = ("/", "x")
  ∧ (dirname "out.txt", basename "out.txt") = (".", "out.txt").
Proof. done. Qed.

Example listing_stays_sorted :
  add_name "b(1).crt" ["a.crt"; "b.crt"] = ["a.crt"; "b(1).crt"; "b.crt"]
  ∧ add_name "a.crt" ["a.crt"; "b.crt"] = ["a.crt"; "b.crt"].
Proof. done. Qed.

Example WriteFile_adds_to_listing :
  ioutil_WriteFile demo_fs "cas/new" "data"
  = Ok (<["cas/new" := File "data" true true]>
          (<["cas" := Dir ["ca.pem"; "junk.txt"; "new"] true]> demo_fs)).
Proof. vm_compute. reflexivity. Qed.

Example WriteFile_missing_directory :
  ioutil_WriteFile demo_fs "nodir/new" "data"
  = Err "open nodir/new: no such file or directory".
Proof. vm_compute. reflexivity. Qed.

Example WriteFile_below_a_file :
  ioutil_WriteFile demo_fs "token.txt/new" "data"
  = Err "open token.txt/new: not a directory".
Proof. vm_compute. reflexivity. Qed.

Example nil_transport_pointer_panics :
  client_Do demo_server {| cl_Transport := TransportPtr None |}
    {| Method := "GET"; URL := "https://sso.example"; Header := ∅ |} demo_world
  = Exit 2 demo_world.
Proof. done. Qed.

(** ** Running computations *)

Lemma bind_Ret {A B} (m : M A) (k : A → M B) w a w' :
  m w = Ret a w' → bind m k w = k a w'.
Proof. intros H. unfold bind. by rewrite H. Qed.

Lemma bind_Exit {A B} (m : M A) (k : A → M B) w s w' :
  m w = Exit s w' → bind m k w = Exit s w'.
Proof. intros H. unfold bind. by rewrite H. Qed.

Lemma bind_inv_Ret {A B} (m : M A) (k : A → M B) w b w2 :
  bind m k w = Ret b w2 → ∃ a w1, m w = Ret a w1 ∧ k a w1 = Ret b w2.
Proof. unfold bind. destruct (m w) as [a w1|]; [eauto | done]. Qed.

Lemma world_eta w : {| fs := fs w; trace := trace w |} = w.
Proof. by destruct w. Qed.

(** ** The token source reader *)

Lemma has_prefix_LF c s :
  has_prefix LF (String c s) = bool_decide (c = ascii_of_nat 10).
Proof.
  unfold LF. simpl. destruct (decide (ascii_of_nat 10 = c)) as [<-|Hne].
  - by rewrite bool_decide_eq_true_2.
  - rewrite bool_decide_eq_false_2; [done | congruence].
Qed.

Lemma replace_scan_LF s : replace_scan LF "" None 0 s = strip_newlines s.
Proof.
  induction s as [|c s IH]; [done |].
  cbn [replace_scan strip_newlines fmap option_fmap option_map].
  rewrite has_prefix_LF. destruct (decide (c = ascii_of_nat 10)) as [->|Hne].
  - rewrite bool_decide_eq_true_2 by done. simpl. exact IH.
  - rewrite bool_decide_eq_false_2 by done. by rewrite IH.
Qed.

(** The call in [ReadToken] removes exactly the newline characters. *)
Lemma Replace_newlines b : strings_Replace b LF "" (-1) = strip_newlines b.
Proof.
  unfold strings_Replace. rewrite !decide_False by done.
  rewrite decide_True by lia. apply replace_scan_LF.
Qed.

Lemma strip_newlines_no_newline s : occurs (ascii_of_nat 10) (strip_newlines s) = false.
Proof.
  induction s as [|c s IH]; [done |]. simpl.
  destruct (decide (c = ascii_of_nat 10)) as [->|Hne]; [done |].
  simpl. rewrite decide_False by congruence. exact IH.
Qed.

Lemma strip_newlines_id s : occurs (ascii_of_nat 10) s = false → strip_newlines s = s.
Proof.
  induction s as [|c s IH]; [done |]. simpl.
  destruct (decide (ascii_of_nat 10 = c)) as [<-|Hne]; [done |].
  intros H. rewrite decide_False by congruence. by rewrite IH.
Qed.

Lemma os_Stat_None fs p : lookup_path fs p = None → os_Stat fs p ≠ None.
Proof. unfold os_Stat. by intros ->. Qed.

Lemma ReadToken_missing r w : lookup_path (fs w) r = None → ReadToken r w = Ret r w.
Proof.
  intros H. unfold ReadToken, bind, read_fs, os_Stat. by rewrite H.
Qed.

Lemma ReadToken_readable r data wr w :
  lookup_path (fs w) r = Some (File data true wr) →
  ReadToken r w = Ret (strip_newlines data) w.
Proof.
  intros H. unfold ReadToken, bind, read_fs, os_Stat, ioutil_ReadFile.
  rewrite H. cbv beta iota. rewrite H. unfold ret. by rewrite Replace_newlines.
Qed.

(** [ReadToken] leaves the world as it found it when it returns. *)
Lemma ReadToken_world r w t w' : ReadToken r w = Ret t w' → w' = w.
Proof.
  unfold ReadToken, bind, read_fs, ret, log_Fatalf, emit, os_Exit, bind.
  destruct (os_Stat (fs w) r); [congruence |].
  destruct (ioutil_ReadFile (fs w) r); congruence.
Qed.

(** ** Worlds that differ by log lines only *)

Lemma logged_refl w : logged w w.
Proof. rewrite <- (world_eta w) at 2. constructor. Qed.

Lemma logged_fs w w' : logged w w' → fs w' = fs w.
Proof. induction 1; done. Qed.

Lemma logged_trace w w' :
  logged w w' → ∃ logs, trace w' = (logs ++ trace w)%list ∧ forallb is_log logs = true.
Proof.
  induction 1 as [|f t e _ [logs [Ht Hl]] He].
  - by exists [].
  - exists (e :: logs). simpl in *. rewrite Ht, He, Hl. done.
Qed.

Lemma logged_trans w1 w2 w3 : logged w1 w2 → logged w2 w3 → logged w1 w3.
Proof.
  intros H12. induction 1 as [|f t e _ IH He].
  - by rewrite world_eta.
  - by constructor.
Qed.

Lemma exchanges_app_logs logs t :
  forallb is_log logs = true → exchanges (logs ++ t)%list = exchanges t.
Proof.
  induction logs as [|e logs IH]; [done |]. simpl.
  intros [He Hl]%andb_true_iff. destruct e; try done; by apply IH.
Qed.

Lemma silent_app_logs logs t :
  forallb is_log logs = true → silent (logs ++ t)%list = silent t.
Proof.
  induction logs as [|e logs IH]; [done |]. simpl.
  intros [He Hl]%andb_true_iff. unfold silent in *. rewrite filter_cons.
  rewrite decide_False by (rewrite He; done). by apply IH.
Qed.

Lemma logged_exchanges w w' : logged w w' → exchanges (trace w') = exchanges (trace w).
Proof. intros (logs & -> & Hl)%logged_trace. by apply exchanges_app_logs. Qed.

Lemma logged_silent w w' : logged w w' → silent (trace w') = silent (trace w).
Proof. intros (logs & -> & Hl)%logged_trace. by apply silent_app_logs. Qed.

(** What [ReadToken] returns depends on the file system only. *)
Lemma ReadToken_same_fs r w w' t :
  fs w' = fs w → ReadToken r w = Ret t w → ReadToken r w' = Ret t w'.
Proof.
  intros Hfs. unfold ReadToken, bind, read_fs, ret. cbv beta. rewrite !Hfs.
  destruct (os_Stat (fs w) r); [congruence |]. rewrite ?Hfs.
  destruct (ioutil_ReadFile (fs w) r); [congruence | done].
Qed.

(** ** The trust store builder *)

Section TrustStore.

Variable lib : GoLib.

Lemma AppendCertsFromPEM_ok pool data :
  (AppendCertsFromPEM lib pool data).2 = valid_pem lib data.
Proof. unfold valid_pem, AppendCertsFromPEM. by case_decide. Qed.

Lemma AppendCertsFromPEM_garbage pool data :
  valid_pem lib data = false → (AppendCertsFromPEM lib pool data).1 = pool.
Proof.
  unfold valid_pem, AppendCertsFromPEM. case_decide; [done |]. simpl.
  intros Hb%bool_decide_eq_false. destruct (pem_certs lib data); [done |].
  by destruct Hb.
Qed.

Lemma Transport_entry_run rootCAs verbose st name w :
  ∃ w', Transport_entry lib rootCAs verbose st name w
        = Ret ((AppendCertsFromPEM lib st.1 (entry_data (fs w) rootCAs name)).1, true) w'
        ∧ logged w w'.
Proof.
  unfold Transport_entry, entry_data, bind, read_fs, when, log_Printf, log_Println,
    emit, ret.
  destruct (ioutil_ReadFile (fs w) (rootCAs +:+ "/" +:+ name)) as [b|e];
    destruct (bool_decide (1 < verbose)%Z);
    destruct (AppendCertsFromPEM lib st.1 _) as [pool []];
    destruct (bool_decide (2 < verbose)%Z); simpl;
    (eexists; split; [reflexivity | repeat first [apply logged_refl | constructor]]).
Qed.

Lemma for_range_Transport_entry rootCAs verbose files : ∀ st w,
  ∃ w', for_range (Transport_entry lib rootCAs verbose) st files w
        = Ret (pool_after lib (fs w) rootCAs st.1 files,
               if files is [] then st.2 else true) w'
        ∧ logged w w'.
Proof.
  induction files as [|name files IH]; intros [pool certs] w.
  - exists w. split; [done | apply logged_refl].
  - destruct (Transport_entry_run rootCAs verbose (pool, certs) name w)
      as (w1 & Hrun & Hlog1).
    destruct (IH ((AppendCertsFromPEM lib pool (entry_data (fs w) rootCAs name)).1, true) w1)
      as (w2 & Hrest & Hlog2).
    exists w2. split; [| by eapply logged_trans].
    cbn [for_range]. rewrite (bind_Ret _ _ _ _ _ Hrun). cbn [fst snd] in *.
    rewrite Hrest, (logged_fs _ _ Hlog1). by destruct files.
Qed.

(** A directory that can be listed: [Transport] returns a transport and no
    error, and only writes to the log. *)
Lemma Transport_listed rootCAs verbose w files :
  ioutil_ReadDir (fs w) rootCAs = Ok files →
  ∃ w', Transport lib rootCAs verbose w
        = Ret (Some {| TLSClientConfig := listed_config lib (fs w) rootCAs files |}, None) w'
        ∧ logged w w'.
Proof.
  intros Hdir.
  destruct (for_range_Transport_entry rootCAs verbose files (NewCertPool, false) w)
    as (w' & Hrun & Hlog).
  exists w'. split; [| done].
  unfold Transport, bind at 1. unfold read_fs at 1. rewrite Hdir.
  rewrite (bind_Ret _ _ _ _ _ Hrun). unfold ret, listed_config. simpl.
  by destruct files.
Qed.

Lemma Transport_not_listed rootCAs verbose w err :
  ioutil_ReadDir (fs w) rootCAs = Err err →
  Transport lib rootCAs verbose w
  = Ret (None, Some (unlisted_message rootCAs err))
      {| fs := fs w; trace := EvLogf (unlisted_message rootCAs err) [] :: trace w |}.
Proof.
  intros Hdir. unfold Transport, bind at 1. unfold read_fs at 1. by rewrite Hdir.
Qed.

(** [Transport] always returns; what it returns depends on the file system
    only, not on the verbosity. *)
Lemma Transport_run rootCAs verbose w :
  ∃ w', Transport lib rootCAs verbose w = Ret (Transport_value lib (fs w) rootCAs) w'
        ∧ logged w w'.
Proof.
  unfold Transport_value.
  destruct (ioutil_ReadDir (fs w) rootCAs) as [files|err] eqn:Hdir.
  - by apply Transport_listed.
  - eexists. split; [by apply Transport_not_listed |].
    constructor; [constructor | done].
Qed.

End TrustStore.

(** ** The renewal client *)

Lemma log_only_ret : log_only (ret ()).
Proof. intros w. exists w. split; [done | apply logged_refl]. Qed.

Lemma log_only_Printf format args : log_only (log_Printf format args).
Proof. intros w. eexists. split; [done |]. constructor; [constructor | done]. Qed.

Lemma log_only_Println args : log_only (log_Println args).
Proof. intros w. eexists. split; [done |]. constructor; [constructor | done]. Qed.

Lemma log_only_fmt_Println args : log_only (fmt_Println args).
Proof. intros w. eexists. split; [done |]. constructor; [constructor | done]. Qed.

Lemma log_only_when b m : log_only m → log_only (when b m).
Proof. destruct b; [done | intros _; apply log_only_ret]. Qed.

Lemma log_only_dump (r : result string) (line : string → M unit) :
  (∀ dump, log_only (line dump)) →
  log_only (match r with Ok dump => line dump | Err _ => ret () end).
Proof. destruct r; [done | intros _; apply log_only_ret]. Qed.

Create HintDb logs.
#[local] Hint Resolve log_only_ret log_only_Printf log_only_Println
  log_only_fmt_Println log_only_when log_only_dump : logs.

Lemma log_Fatal_run {A} args w :
  ∃ w', @log_Fatal A args w = Exit 1 w' ∧ logged w w'.
Proof. eexists. split; [done |]. constructor; [constructor | done]. Qed.

Lemma log_Fatalf_run {A} format args w :
  ∃ w', @log_Fatalf A format args w = Exit 1 w' ∧ logged w w'.
Proof. eexists. split; [done |]. constructor; [constructor | done]. Qed.

Section RenewalClient.

Variable lib : GoLib.
Variable http_Do : list (http_Client * http_Request) → result http_Response.

Lemma client_Do_sends c req w :
  cl_Transport c ≠ TransportPtr None →
  client_Do http_Do c req w
  = Ret (http_Do ((c, req) :: exchanges (trace w)))
      {| fs := fs w; trace := EvDo c req :: trace w |}.
Proof. unfold client_Do. by destruct (cl_Transport c) as [|[tr|]]. Qed.

(** The client [Renew] builds never holds a nil pointer: [Transport] returns
    a transport whenever it returns no error. *)
Lemma renew_client_transport fs0 rootCAs :
  cl_Transport (renew_client lib fs0 rootCAs) ≠ TransportPtr None.
Proof.
  unfold renew_client, Transport_value.
  by destruct (ioutil_ReadDir fs0 rootCAs).
Qed.

(** Every run of [Renew], case by case. *)
Lemma Renew_run uri token rootCAs verbose w :
  match ReadToken token w with
  | Exit s w1 => Renew lib http_Do uri token rootCAs verbose w = Exit s w1
  | Ret t _ =>
      match http_NewRequest lib "GET" uri with
      | Err _ =>
          ∃ w', Renew lib http_Do uri token rootCAs verbose w = Exit 1 w'
                ∧ logged w w'
      | Ok req0 =>
          let c := renew_client lib (fs w) rootCAs in
          let req := renew_request req0 t in
          ∃ w1 w3,
            logged w w1
            ∧ logged {| fs := fs w; trace := EvDo c req :: trace w1 |} w3
            ∧ Renew lib http_Do uri token rootCAs verbose w
              = match renew_result (http_Do ((c, req) :: exchanges (trace w))) with
                | Some rec => Ret rec w3
                | None => Exit 1 w3
                end
      end
  end.
Proof.
  unfold Renew.
  destruct (ReadToken token w) as [t w0|s w0] eqn:Hrt;
    [| by rewrite (bind_Exit _ _ _ _ _ Hrt)].
  pose proof (ReadToken_world _ _ _ _ Hrt) as ->.
  rewrite (bind_Ret _ _ _ _ _ Hrt).
  destruct (log_only_when (bool_decide (1 < verbose)%Z) _
              (log_only_Printf "renew %s\ninput token : %s\noutput token: %s\n"
                 [uri; token; t]) w) as (wa & Ha & La).
  rewrite (bind_Ret _ _ _ _ _ Ha).
  destruct (http_NewRequest lib "GET" uri) as [req0|e].
  - cbv zeta. set (req := renew_request req0 t).
    rewrite (bind_Ret _ _ wa req0 wa) by done. fold (renew_request req0 t). fold req.
    assert (log_only (when (bool_decide (0 < verbose)%Z)
              (match DumpRequestOut lib req with
               | Ok dump => log_Println ["request: "; dump]
               | Err _ => ret ()
               end))) as Hdump by auto with logs.
    destruct (Hdump wa) as (wb & Hb & Lb). rewrite (bind_Ret _ _ _ _ _ Hb).
    destruct (Transport_run lib rootCAs verbose wb) as (w1 & Htr & L1).
    rewrite (bind_Ret _ _ _ _ _ Htr).
    assert (logged w w1) as Lw1 by eauto using logged_trans.
    assert (fs wb = fs w) as Hfs by (rewrite (logged_fs _ _ Lb); by apply logged_fs).
    rewrite Hfs.
    set (c := renew_client lib (fs w) rootCAs).
    assert ((let '(tr, err) := Transport_value lib (fs w) rootCAs in
             match err with
             | None => {| cl_Transport := TransportPtr tr |}
             | Some _ => default_client
             end) = c) as Hc.
    { unfold c, renew_client. by destruct (Transport_value lib (fs w) rootCAs) as [? []]. }
    destruct (Transport_value lib (fs w) rootCAs) as [tr err] eqn:Hval.
    rewrite Hc. unfold bind at 1.
    rewrite (client_Do_sends c req w1 (renew_client_transport (fs w) rootCAs)).
    rewrite (logged_exchanges _ _ Lw1), (logged_fs _ _ Lw1).
    set (w2 := {| fs := fs w; trace := EvDo c req :: trace w1 |}).
    unfold renew_result.
    destruct (http_Do ((c, req) :: exchanges (trace w))) as [resp|e].
    + assert (log_only (when (bool_decide (1 < verbose)%Z)
                (match DumpResponse lib resp with
                 | Ok dump => log_Println ["[DEBUG] response:"; dump]
                 | Err _ => ret ()
                 end))) as Hdump2 by auto with logs.
      destruct (Hdump2 w2) as (wc & Hc2 & Lc).
      unfold bind at 1. unfold bind at 1. rewrite Hc2. unfold ret at 1.
      destruct (Body resp) as [data|e].
      * unfold bind at 1, ret at 1.
        destruct (json_Unmarshal data zero_record) as [rec [e|]].
        -- destruct (@log_Fatal_run TokenRecord [e] wc) as (wd & -> & Ld).
           exists w1, wd. eauto using logged_trans.
        -- exists w1, wc. done.
      * unfold bind at 1.
        destruct (@log_Fatal_run string [e] wc) as (wd & -> & Ld).
        exists w1, wd. eauto using logged_trans.
    + unfold bind at 1.
      destruct (@log_Fatal_run http_Response
                  ["Unable to make HTTP request"; Sprint_request lib req; e] w2)
        as (wd & -> & Ld).
      exists w1, wd. eauto.
  - unfold bind at 1.
    destruct (@log_Fatal_run http_Request [e] wa) as (wd & -> & Ld).
    exists wd. eauto using logged_trans.
Qed.

End RenewalClient.

(** ** Decoding a response body *)

Lemma store_field_error f v rec :
  (store_field f v rec).2 = None ↔ fits f v = true.
Proof.
  unfold store_field, fits.
  destruct v as [| |lit| | |], (field_type f); simpl; try done;
    destruct (parse_int64 lit); done.
Qed.

Lemma store_field_other f g v rec :
  f ≠ g → get_field g (store_field f v rec).1 = get_field g rec.
Proof.
  intros Hne. unfold store_field.
  destruct v as [| |lit| | |], f, g; simpl; try done;
    destruct (parse_int64 lit); done.
Qed.

Lemma decode_members_error ms : ∀ rec saved,
  (decode_members ms rec saved).2 = None ↔ saved = None ∧ members_fit ms = true.
Proof.
  induction ms as [|[key v] ms IH]; intros rec saved; simpl; [intuition |].
  destruct (find_field key) as [f|]; [| apply IH].
  pose proof (store_field_error f v rec) as Hstore.
  destruct (store_field f v rec) as [rec' err]. rewrite IH. simpl in Hstore.
  destruct saved as [e|], (fits f v); simpl; intuition congruence.
Qed.

Lemma decode_members_absent f ms : ∀ rec saved,
  selects f ms = false →
  get_field f (decode_members ms rec saved).1 = get_field f rec.
Proof.
  induction ms as [|[key v] ms IH]; intros rec saved; simpl; [done |].
  intros [Hkey Hrest]%orb_false_iff. apply bool_decide_eq_false in Hkey.
  destruct (find_field key) as [g|]; [| by apply IH].
  pose proof (store_field_other g f v rec) as Hstore.
  destruct (store_field g v rec) as [rec' err]. rewrite IH by done.
  apply Hstore. congruence.
Qed.

Lemma decode_value_error v rec :
  (decode_value v rec).2 = None ↔ accepted v = true.
Proof.
  destruct v; simpl; try done. rewrite decode_members_error. intuition.
Qed.

Lemma json_Unmarshal_parsed data v rec :
  json_parse data = Some v → json_Unmarshal data rec = decode_value v rec.
Proof. unfold json_Unmarshal. by intros ->. Qed.

Lemma zero_record_fields f : get_field f zero_record = zero_value f.
Proof. by destruct f. Qed.

(** ** The renewal loop *)

(** Making an entry: where it succeeds and what it leaves. *)
Lemma create_entry_Ok op fs p nd fs' :
  create_entry op fs p nd = Ok fs' →
  ∃ names l,
    fs !! dirname p = Some (Dir names l)
    ∧ basename p ≠ ""
    ∧ fs' = <[p := nd]> (<[dirname p := Dir (add_name (basename p) names) l]> fs).
Proof.
  unfold create_entry.
  destruct (fs !! dirname p) as [[| names l |]|]; try done.
  destruct (decide (basename p = "")); [done |].
  intros [= <-]. by exists names, l.
Qed.

Lemma elem_of_insert_name x name names :
  x ∈ insert_name name names ↔ x = name ∨ x ∈ names.
Proof.
  induction names as [|n ns IH]; cbn [insert_name].
  - rewrite list_elem_of_singleton, elem_of_nil. tauto.
  - destruct (String.ltb name n); rewrite !elem_of_cons; [tauto |].
    rewrite IH. tauto.
Qed.

Lemma elem_of_add_name x name names :
  x ∈ add_name name names ↔ x = name ∨ x ∈ names.
Proof.
  unfold add_name. case_bool_decide as Hin.
  - split; [tauto |]. by intros [-> | ?].
  - apply elem_of_insert_name.
Qed.

Lemma add_name_idemp name names :
  add_name name (add_name name names) = add_name name names.
Proof.
  unfold add_name at 1. rewrite bool_decide_eq_true_2; [done |].
  apply elem_of_add_name. by left.
Qed.

(** A write that succeeds truncated a writable file that was there, or made
    the file in a directory of the file system. *)
Lemma ioutil_WriteFile_Ok fs p data fs' :
  ioutil_WriteFile fs p data = Ok fs' →
  p ≠ ""
  ∧ ((∃ d r, fs !! p = Some (File d r true) ∧ fs' = <[p := File data r true]> fs)
     ∨ (fs !! p = None
        ∧ ∃ names l,
            fs !! dirname p = Some (Dir names l)
            ∧ basename p ≠ ""
            ∧ fs' = <[p := File data true true]>
                      (<[dirname p := Dir (add_name (basename p) names) l]> fs))).
Proof.
  unfold ioutil_WriteFile. destruct (decide (p = "")) as [|Hp]; [done |].
  destruct (fs !! p) as [[d r [] | |]|] eqn:Hnode; try done.
  - intros [= <-]. split; [done |]. left. eauto.
  - intros (names & l & Hdir & Hbase & ->)%create_entry_Ok.
    split; [done |]. right. split; [done |]. eauto.
Qed.


(** The write of the access token: nothing to do without an output path;
    otherwise the file holds the token afterwards, or the process ends. *)
Lemma write_out_run out rec w :
  if decide (out = "") then write_out out rec w = Ret () w
  else match ioutil_WriteFile (fs w) out (AccessToken rec) with
       | Ok fs' => write_out out rec w = Ret () {| fs := fs'; trace := trace w |}
       | Err _ => ∃ w', write_out out rec w = Exit 1 w' ∧ logged w w'
       end.
Proof.
  unfold write_out. destruct (decide (out = "")) as [Ho|Ho].
  - by rewrite decide_False by (by intros ?).
  - rewrite decide_True by done. unfold bind, WriteFile. cbv beta.
    destruct (ioutil_WriteFile (fs w) out (AccessToken rec)) as [fs'|e]; [done |].
    apply log_Fatalf_run.
Qed.


Lemma printRecord_log_only lib rec verbose : log_only (printRecord lib rec verbose).
Proof.
  unfold printRecord. apply log_only_when.
  destruct (MarshalIndent lib rec); auto with logs.
Qed.

Section RenewalLoop.

Variable lib : GoLib.
Variable http_Do : list (http_Client * http_Request) → result http_Response.
Variable LoadCAs : Z → M (string * option error).




(** A turn whose token resolves and whose request can be built sends exactly
    one request; what happens next depends on the answer and on the write of
    the output file. *)
Lemma daemon_turn_run rurl out rootCAs verbose interval rec w t req0 :
  ReadToken (RefreshToken rec) w = Ret t w →
  http_NewRequest lib "GET" rurl = Ok req0 →
  let c := renew_client lib (fs w) rootCAs in
  let req := renew_request req0 t in
  let turn := daemon_turn lib http_Do rurl out rootCAs verbose interval rec w in
  exchanges (trace (outcome_world turn)) = (c, req) :: exchanges (trace w)
  ∧ ∀ rec' w', turn = Ret rec' w' →
      renew_result (http_Do ((c, req) :: exchanges (trace w))) = Some rec'.
Proof.
  intros Htoken Hreq c req turn.
  set (ws := {| fs := fs w; trace := EvSleep (wrap64 (wrap64 interval * 1000000000)) :: trace w |}).
  assert (turn = bind (Renew lib http_Do rurl (RefreshToken rec) rootCAs verbose)
                   (λ rec0, write_out out rec0;; printRecord lib rec0 verbose;; ret rec0) ws)
    as Hturn by reflexivity.
  clearbody turn.
  assert (ReadToken (RefreshToken rec) ws = Ret t ws) as Htoken'
    by (by apply (ReadToken_same_fs _ w)).
  pose proof (Renew_run lib http_Do rurl (RefreshToken rec) rootCAs verbose ws) as Hrenew.
  rewrite Htoken', Hreq in Hrenew. cbv zeta in Hrenew.
  destruct Hrenew as (w1 & w3 & L1 & L3 & Hrenew).
  change (fs ws) with (fs w) in *. change (exchanges (trace ws)) with (exchanges (trace w)) in *.
  fold c in L3, Hrenew. fold req in L3, Hrenew.
  assert (exchanges (trace w3) = (c, req) :: exchanges (trace w)) as Hex.
  { rewrite (logged_exchanges _ _ L3). simpl. by rewrite (logged_exchanges _ _ L1). }
  unfold bind at 1 in Hturn. rewrite Hrenew in Hturn.
  destruct (renew_result (http_Do ((c, req) :: exchanges (trace w)))) as [rec1|];
    cbv beta iota in Hturn; [| by subst turn].
  pose proof (write_out_run out rec1 w3) as Hwrite.
  pose proof (printRecord_log_only lib rec1 verbose) as Hprint.
  unfold bind at 1 in Hturn.
  destruct (decide (out = "")) as [Ho|Ho].
  - rewrite Hwrite in Hturn. destruct (Hprint w3) as (w4 & Hp & L4).
    unfold bind at 1 in Hturn. rewrite Hp in Hturn. subst turn. unfold ret. simpl.
    rewrite (logged_exchanges _ _ L4). split; [done |]. by intros ? ? [= <- _].
  - destruct (ioutil_WriteFile (fs w3) out (AccessToken rec1)) as [fs'|e].
    + rewrite Hwrite in Hturn.
      destruct (Hprint {| fs := fs'; trace := trace w3 |}) as (w4 & Hp & L4).
      unfold bind at 1 in Hturn. rewrite Hp in Hturn. subst turn. unfold ret. simpl.
      rewrite (logged_exchanges _ _ L4). split; [done |]. by intros ? ? [= <- _].
    + destruct Hwrite as (w4 & Hw & L4). rewrite Hw in Hturn. subst turn. simpl.
      rewrite (logged_exchanges _ _ L4). by split.
Qed.

End RenewalLoop.

(** A round trip: the endpoint's answer to T0 decodes to the five fields it
    carries. *)
Example Renew_round_trip :
  ∃ w', Renew demo_lib demo_server "https://sso.example/token/renew" "T0" "cas" 0
          demo_world = Ret demo_record w'.
Proof. eexists. vm_compute. reflexivity. Qed.

(** ** Auxiliary facts for the claims *)

(** A path that exists but cannot be read as a file (a directory, a file
    without read permission): [ReadToken] terminates the process. *)
Lemma ReadToken_unreadable r w e :
  lookup_path (fs w) r ≠ None → ioutil_ReadFile (fs w) r = Err e →
  ∃ w', ReadToken r w = Exit 1 w' ∧ logged w w'.
Proof.
  intros Hexists Hread. unfold ReadToken, bind at 1, read_fs at 1, os_Stat.
  destruct (lookup_path (fs w) r); [| done].
  unfold bind at 1, read_fs at 1. rewrite Hread. apply log_Fatalf_run.
Qed.

(** What the code does for a directory it can list: verification is skipped
    exactly when the listing is empty, whatever the entries hold. *)
Lemma Transport_insecure_iff_empty_listing lib rootCAs verbose w files :
  ioutil_ReadDir (fs w) rootCAs = Ok files →
  ∃ tr w', Transport lib rootCAs verbose w = Ret (Some tr, None) w'
           ∧ (InsecureSkipVerify (TLSClientConfig tr) = true ↔ files = []).
Proof.
  intros Hdir. destruct (Transport_listed lib rootCAs verbose w files Hdir) as (w' & Hrun & _).
  eexists _, w'. split; [exact Hrun |]. by destruct files.
Qed.

Lemma silent_cons_Do c req t : silent (EvDo c req :: t) = EvDo c req :: silent t.
Proof. unfold silent. by rewrite filter_cons, decide_True. Qed.

Lemma Renew_observable_eq lib http_Do uri token rootCAs verbose w :
  observable (Renew lib http_Do uri token rootCAs verbose w)
  = Renew_observable lib http_Do uri token rootCAs w.
Proof.
  pose proof (Renew_run lib http_Do uri token rootCAs verbose w) as Hrun.
  unfold Renew_observable.
  destruct (ReadToken token w) as [t w0|s w0]; [| by rewrite Hrun].
  destruct (http_NewRequest lib "GET" uri) as [req0|e].
  - cbv zeta in *. destruct Hrun as (w1 & w3 & L1 & L3 & ->).
    pose proof (logged_fs _ _ L3) as Hfs. pose proof (logged_silent _ _ L3) as Hsilent.
    simpl in Hfs, Hsilent. rewrite silent_cons_Do, (logged_silent _ _ L1) in Hsilent.
    destruct (renew_result _); simpl; by rewrite Hfs, Hsilent.
  - destruct Hrun as (w' & -> & L). simpl.
    by rewrite (logged_fs _ _ L), (logged_silent _ _ L).
Qed.

Lemma renew_request_Authorization req0 t :
  Header_Get "Authorization" (renew_request req0 t) = "Bearer " +:+ t.
Proof.
  unfold Header_Get, renew_request, Header_Set. cbn [Header].
  rewrite lookup_insert_ne by done. by rewrite lookup_insert_eq.
Qed.

(** What a turn of the daemon loop does with the refresh token.  It calls
    [Renew] with the refresh token of the record in memory as the input
    token; [Renew] resolves it with [ReadToken], and the one request of the
    turn carries Authorization: Bearer followed by the resolved token, which
    is the refresh token itself whenever that names no existing file.  The
    record the turn returns is the one decoded from the answer to that
    request, and it is the record in memory for the turns that follow. *)
Lemma daemon_turn_uses_refresh_token (lib : GoLib)
    (http_Do : list (http_Client * http_Request) → result http_Response)
    (rurl out rootCAs : string) (verbose interval : Z) (rec : TokenRecord)
    (w : World) (t : string) (req0 : http_Request) :
  ReadToken (RefreshToken rec) w = Ret t w →
  http_NewRequest lib "GET" rurl = Ok req0 →
  let turn := daemon_turn lib http_Do rurl out rootCAs verbose interval rec w in
  turn = (time_Sleep (wrap64 (wrap64 interval * 1000000000));;
          rec' ← Renew lib http_Do rurl (RefreshToken rec) rootCAs verbose;
          write_out out rec';; printRecord lib rec' verbose;; ret rec') w
  ∧ (lookup_path (fs w) (RefreshToken rec) = None → t = RefreshToken rec)
  ∧ ∃ c req,
      exchanges (trace (outcome_world turn)) = (c, req) :: exchanges (trace w)
      ∧ Header_Get "Authorization" req = "Bearer " +:+ t
      ∧ ∀ rec' w', turn = Ret rec' w' →
          renew_result (http_Do ((c, req) :: exchanges (trace w))) = Some rec'
          ∧ ∀ n, daemon lib http_Do (S n) rurl out rootCAs verbose interval rec w
                 = daemon lib http_Do n rurl out rootCAs verbose interval rec' w'.
Proof.
  intros Htoken Hreq turn. split; [reflexivity |]. split.
  { intros Hmissing. rewrite (ReadToken_missing _ _ Hmissing) in Htoken. congruence. }
  destruct (daemon_turn_run lib http_Do rurl out rootCAs verbose interval rec w t req0
              Htoken Hreq) as [Hex Hret].
  eexists _, _. split; [exact Hex |]. split; [apply renew_request_Authorization |].
  intros rec' w' Hturn. split; [by eapply Hret |].
  intros n. cbn [daemon]. by rewrite (bind_Ret _ _ _ _ _ Hturn).
Qed.

Example daemon_turn_uses_refresh_token_demo :
  ∃ c req,
    exchanges (trace (outcome_world
      (daemon_turn demo_lib demo_server "https://sso.example/token/renew" ""
         "cas" 0 600 demo_record demo_world)))
    = (c, req) :: exchanges (trace demo_world)
    ∧ Header_Get "Authorization" req = "Bearer R1".
Proof.
  destruct (daemon_turn_uses_refresh_token demo_lib demo_server
              "https://sso.example/token/renew" "" "cas" 0 600 demo_record demo_world
              "R1"
              {| Method := "GET"; URL := "https://sso.example/token/renew"; Header := ∅ |})
    as (_ & _ & c & req & Hex & Hauth & _);
    [vm_compute; reflexivity | vm_compute; reflexivity |].
  exists c, req. split; [exact Hex | exact Hauth].
Qed.

(** ** The claims *)

(** C6. For every string [s] that names no existing file (no file system
    entry of any kind), [ReadToken s] returns [s] itself, unchanged, and
    touches nothing. *)
Theorem ReadToken_literal (s : string) (w : World) :
  lookup_path (fs w) s = None → ReadToken s w = Ret s w.
Proof. apply ReadToken_missing. Qed.

Lemma ReadToken_literal_witness :
  lookup_path (fs demo_world) "T0" = None
  ∧ ReadToken "T0" demo_world = Ret "T0" demo_world.
Proof.
  split; [vm_compute; reflexivity | apply ReadToken_literal; vm_compute; reflexivity].
Defined.

(** C7. For every path that names an existing, readable file, [ReadToken]
    returns the whole contents of the file with every newline character (the
    line feed, byte 10) removed: the result holds no newline; and a file that
    holds the two lines abc and def, each ended by a newline, gives abcdef. *)
Theorem ReadToken_file (path data : string) (writable : bool) (w : World) :
  lookup_path (fs w) path = Some (File data true writable) →
  ReadToken path w = Ret (strip_newlines data) w
  ∧ occurs (ascii_of_nat 10) (strip_newlines data) = false
  ∧ (data = "abc" +:+ LF +:+ "def" +:+ LF → ReadToken path w = Ret "abcdef" w).
Proof.
  intros Hfile. pose proof (ReadToken_readable _ _ _ _ Hfile) as Hrun.
  split; [done |]. split; [apply strip_newlines_no_newline |].
  intros ->. exact Hrun.
Qed.

Lemma ReadToken_file_witness :
  lookup_path (fs demo_world) "token.txt"
  = Some (File ("abc" +:+ LF +:+ "def" +:+ LF) true true)
  ∧ ReadToken "token.txt" demo_world = Ret "abcdef" demo_world.
Proof.
  split; [vm_compute; reflexivity |].
  apply (ReadToken_file "token.txt" ("abc" +:+ LF +:+ "def" +:+ LF) true demo_world);
    [vm_compute; reflexivity | reflexivity].
Defined.

(** C1 (the code at the failing input). The directory junk can be listed and
    holds one file, junk.txt, in which no certificate is found.  No
    certificate was parsed, and yet [Transport] returns a configuration that
    does not skip verification and whose pool of roots is empty. *)
Theorem Transport_garbage_only_directory :
  ioutil_ReadDir (fs demo_world) "junk" = Ok ["junk.txt"]
  ∧ valid_pem demo_lib (entry_data (fs demo_world) "junk" "junk.txt") = false
  ∧ ∀ verbose, ∃ w',
      Transport demo_lib "junk" verbose demo_world
      = Ret (Some {| TLSClientConfig :=
                       {| RootCAs := Some []; InsecureSkipVerify := false |} |},
             None) w'.
Proof.
  split; [vm_compute; reflexivity |]. split; [vm_compute; reflexivity |].
  intros verbose.
  destruct (Transport_listed demo_lib "junk" verbose demo_world ["junk.txt"])
    as (w' & Hrun & _); [vm_compute; reflexivity |].
  exists w'. exact Hrun.
Qed.

(** C2 (counterexample). The directory missing does not exist; [Transport]
    returns no transport at all, so it does not return a configuration with
    verification disabled. *)
Lemma Transport_unlisted_counterexample :
  lookup_path (fs demo_world) "missing" = None
  ∧ ¬ ∃ tr err w',
        Transport demo_lib "missing" 0 demo_world = Ret (Some tr, err) w'
        ∧ InsecureSkipVerify (TLSClientConfig tr) = true.
Proof.
  split; [vm_compute; reflexivity |].
  intros (tr & err & w' & Hrun & _).
  rewrite (Transport_not_listed demo_lib "missing" 0 demo_world
             "open missing: no such file or directory") in Hrun
    by (vm_compute; reflexivity).
  discriminate Hrun.
Qed.

(** C2 (amended). When the directory cannot be listed (the path is empty, the
    directory does not exist, or it may not be read), [Transport] returns no
    transport (nil) together with an error; it writes the error's message to
    the log, changes nothing else and does not terminate the process. *)
Theorem Transport_unlisted_returns_error (lib : GoLib) (rootCAs : string)
    (verbose : Z) (w : World) :
  rootCAs = "" ∨ lookup_path (fs w) rootCAs = None
  ∨ (∃ names, lookup_path (fs w) rootCAs = Some (Dir names false)) →
  ∃ msg, Transport lib rootCAs verbose w
         = Ret (None, Some msg) {| fs := fs w; trace := EvLogf msg [] :: trace w |}.
Proof.
  intros Hcase.
  assert (∃ err, ioutil_ReadDir (fs w) rootCAs = Err err) as [err Hdir].
  { unfold ioutil_ReadDir. destruct Hcase as [-> | [-> | [names ->]]]; eauto. }
  eexists. by apply Transport_not_listed.
Qed.

Lemma Transport_unlisted_returns_error_witness :
  lookup_path (fs demo_world) "locked" = Some (Dir [] false)
  ∧ ∃ msg, Transport demo_lib "locked" 3 demo_world
           = Ret (None, Some msg)
               {| fs := fs demo_world; trace := EvLogf msg [] :: trace demo_world |}.
Proof.
  split; [vm_compute; reflexivity |].
  apply Transport_unlisted_returns_error. right. right. exists [].
  vm_compute. reflexivity.
Defined.

(** C3. A directory that holds exactly one valid PEM certificate file and one
    garbage file, in either order: [Transport] returns a configuration that
    verifies ([InsecureSkipVerify] is false) against the pool made of the
    valid file's certificates.  The garbage file costs at most log lines and
    the scan goes on past it: the valid file is loaded also when it comes
    second. *)
Theorem Transport_one_valid_one_garbage (lib : GoLib) (rootCAs : string)
    (verbose : Z) (w : World) (files : list string) (good bad gdata : string) :
  ioutil_ReadDir (fs w) rootCAs = Ok files →
  files = [good; bad] ∨ files = [bad; good] →
  ioutil_ReadFile (fs w) (rootCAs +:+ "/" +:+ good) = Ok gdata →
  valid_pem lib gdata = true →
  valid_pem lib (entry_data (fs w) rootCAs bad) = false →
  ∃ w', Transport lib rootCAs verbose w
        = Ret (Some {| TLSClientConfig :=
                         {| RootCAs := Some (AppendCertsFromPEM lib NewCertPool gdata).1;
                            InsecureSkipVerify := false |} |},
               None) w'
        ∧ logged w w'.
Proof.
  intros Hdir Hfiles Hgood Hvalid Hbad.
  destruct (Transport_listed lib rootCAs verbose w files Hdir) as (w' & Hrun & Hlog).
  exists w'. split; [| done]. rewrite Hrun. do 4 f_equal.
  assert (entry_data (fs w) rootCAs good = gdata) as Hdata
    by (unfold entry_data; by rewrite Hgood).
  destruct Hfiles as [-> | ->]; unfold listed_config, pool_after; cbn [foldl];
    by rewrite Hdata, !(AppendCertsFromPEM_garbage lib _ _ Hbad).
Qed.

Lemma Transport_one_valid_one_garbage_witness :
  ∃ w', Transport demo_lib "cas" 3 demo_world
        = Ret (Some {| TLSClientConfig :=
                         {| RootCAs := Some ["-----BEGIN CERTIFICATE-----MIIBdemo"];
                            InsecureSkipVerify := false |} |},
               None) w'
        ∧ logged demo_world w'.
Proof.
  apply (Transport_one_valid_one_garbage demo_lib "cas" 3 demo_world
           ["ca.pem"; "junk.txt"] "ca.pem" "junk.txt"
           "-----BEGIN CERTIFICATE-----MIIBdemo");
    [vm_compute; reflexivity | left; reflexivity | vm_compute; reflexivity
    | vm_compute; reflexivity | vm_compute; reflexivity].
Defined.

(** C4. Whenever [Transport] returns an error to [Renew] (called, as [Renew]
    calls it, in a world that differs from the initial one by log lines
    only, after the token was resolved and the request built), the one HTTP
    request of the run is sent with the default client: its transport is the
    nil interface, which stands for Go's default transport with the system's
    trust roots, and it does not skip verification.  The pointer that
    [Transport] returned with the error is not stored in the client. *)
Theorem Renew_default_client_on_Transport_error (lib : GoLib)
    (http_Do : list (http_Client * http_Request) → result http_Response)
    (uri token rootCAs : string) (verbose : Z) (w wb wb' : World)
    (tr : option http_Transport) (err : error) (t : string) (req0 : http_Request) :
  logged w wb →
  Transport lib rootCAs verbose wb = Ret (tr, Some err) wb' →
  ReadToken token w = Ret t w →
  http_NewRequest lib "GET" uri = Ok req0 →
  exchanges (trace (outcome_world (Renew lib http_Do uri token rootCAs verbose w)))
  = (default_client, renew_request req0 t) :: exchanges (trace w)
  ∧ cl_Transport default_client = NoRoundTripper
  ∧ default_client ≠ {| cl_Transport := TransportPtr tr |}
  ∧ client_insecure default_client = false.
Proof.
  intros Hlog Htr Htoken Hreq. split; [| by repeat split].
  destruct (Transport_run lib rootCAs verbose wb) as (wb'' & Hval & _).
  rewrite Htr in Hval. injection Hval as Hval _.
  rewrite (logged_fs _ _ Hlog) in Hval.
  pose proof (Renew_run lib http_Do uri token rootCAs verbose w) as Hrun.
  rewrite Htoken, Hreq in Hrun. cbv zeta in Hrun.
  unfold renew_client in Hrun. rewrite <- Hval in Hrun.
  destruct Hrun as (w1 & w3 & L1 & L3 & ->).
  assert (exchanges (trace w3) = (default_client, renew_request req0 t) :: exchanges (trace w))
    as Hex.
  { rewrite (logged_exchanges _ _ L3). simpl. by rewrite (logged_exchanges _ _ L1). }
  by destruct (renew_result _).
Qed.

Lemma Renew_default_client_on_Transport_error_witness :
  exchanges (trace (outcome_world
    (Renew demo_lib demo_server "https://sso.example/token/renew" "T0" "missing" 0
       demo_world)))
  = [(default_client,
      renew_request
        {| Method := "GET"; URL := "https://sso.example/token/renew"; Header := ∅ |}
        "T0")]
  ∧ cl_Transport default_client = NoRoundTripper
  ∧ default_client ≠ {| cl_Transport := TransportPtr None |}
  ∧ client_insecure default_client = false.
Proof.
  apply (Renew_default_client_on_Transport_error demo_lib demo_server
           "https://sso.example/token/renew" "T0" "missing" 0 demo_world demo_world
           {| fs := demo_fs;
              trace := [EvLogf (unlisted_message "missing"
                                  "open missing: no such file or directory") []] |}
           None (unlisted_message "missing" "open missing: no such file or directory"));
    [apply logged_refl | vm_compute; reflexivity | vm_compute; reflexivity
    | vm_compute; reflexivity].
Defined.

(** C10. For every uri, token, root-CA directory and world, and for every
    network, two runs of [Renew] that differ in the verbosity only return the
    same record or end with the same exit status, leave the same file system
    and the same trace apart from log lines: in particular they send the same
    request, headers included, with the same client. *)
Theorem Renew_verbose_independent (lib : GoLib)
    (http_Do : list (http_Client * http_Request) → result http_Response)
    (uri token rootCAs : string) (v1 v2 : Z) (w : World) :
  observable (Renew lib http_Do uri token rootCAs v1 w)
  = observable (Renew lib http_Do uri token rootCAs v2 w)
  ∧ exchanges (trace (outcome_world (Renew lib http_Do uri token rootCAs v1 w)))
    = exchanges (trace (outcome_world (Renew lib http_Do uri token rootCAs v2 w))).
Proof.
  assert (∀ A (o : outcome A), exchanges (trace (outcome_world o)) = exchanges (observable o).2)
    as Hex.
  { intros A [a w0|s w0]; simpl; unfold silent;
      induction (trace w0) as [|e t IH]; try done;
      rewrite filter_cons; destruct e; simpl; by rewrite ?IH. }
  rewrite !Hex, !Renew_observable_eq. done.
Qed.

(** C5 (the code at the failing input). The endpoint answers the first
    renewal with the refresh token R1, and the working directory holds a file
    named R1 whose contents are S3.  The next turn of the loop is called with
    R1; [Renew] resolves it with [ReadToken], which finds the file, and the
    request carries Authorization: Bearer S3, not Bearer R1. *)
Theorem daemon_turn_sends_file_named_by_refresh_token :
  ∃ w1,
    main demo_lib demo_server demo_LoadCAs 0 (demo_flags "") demo_world_R1
    = Ret (Looping demo_record) w1
    ∧ RefreshToken demo_record = "R1"
    ∧ ∃ c req,
        exchanges (trace (outcome_world
          (daemon_turn demo_lib demo_server "https://sso.example/token/renew" ""
             "cas" 0 600 demo_record w1)))
        = (c, req) :: exchanges (trace w1)
        ∧ Header_Get "Authorization" req = "Bearer S3"
        ∧ Header_Get "Authorization" req ≠ "Bearer " +:+ RefreshToken demo_record.
Proof.
  eexists. split; [vm_compute; reflexivity |]. split; [reflexivity |].
  eexists _, _. split; [vm_compute; reflexivity |].
  split; [vm_compute; reflexivity | vm_compute; discriminate].
Qed.



(** C9 (counterexample). The body of two brackets is a well-formed JSON
    document, an empty array; [json.Unmarshal] refuses to decode an array into
    the record, and [Renew] terminates the process. *)
Lemma Renew_rejects_array_counterexample :
  json_parse "[]" = Some (JArr [])
  ∧ (json_Unmarshal "[]" zero_record).2
    = Some "json: cannot unmarshal array into Go value of type main.TokenRecord"
  ∧ ∃ w', Renew demo_lib demo_server "https://sso.example/token/renew" "list" "cas" 0
            demo_world = Exit 1 w'.
Proof.
  split; [vm_compute; reflexivity |]. split; [vm_compute; reflexivity |].
  eexists. vm_compute. reflexivity.
Qed.

(** C9 (amended). [Renew] does not check that a field is present.  It
    accepts a body that is well-formed JSON exactly when the document is null
    or an object in which every member that selects a field of the record
    holds null or a value of the field's type (a string; an integer literal in
    the 64-bit range); then it returns a record, and every field that no
    member selects has its zero value (the empty string, 0).  Any other
    well-formed document terminates the process.  In particular the empty
    object is accepted and gives the zero record: the renewal succeeds with an
    empty access token and an empty refresh token. *)
Theorem Renew_accepts_fitting_documents (lib : GoLib)
    (http_Do : list (http_Client * http_Request) → result http_Response)
    (uri token rootCAs : string) (verbose : Z) (w : World) (t : string)
    (req0 : http_Request) (resp : http_Response) (data : string) (v : json) :
  ReadToken token w = Ret t w →
  http_NewRequest lib "GET" uri = Ok req0 →
  http_Do ((renew_client lib (fs w) rootCAs, renew_request req0 t)
           :: exchanges (trace w)) = Ok resp →
  Body resp = Ok data →
  json_parse data = Some v →
  (if accepted v then
     ∃ rec w', Renew lib http_Do uri token rootCAs verbose w = Ret rec w'
               ∧ ∀ f, absent f v = true → get_field f rec = zero_value f
   else ∃ w', Renew lib http_Do uri token rootCAs verbose w = Exit 1 w')
  ∧ (v = JObj [] →
     ∃ w', Renew lib http_Do uri token rootCAs verbose w = Ret zero_record w'
           ∧ AccessToken zero_record = "" ∧ RefreshToken zero_record = "").
Proof.
  intros Htoken Hreq Hdo Hbody Hparse.
  pose proof (Renew_run lib http_Do uri token rootCAs verbose w) as Hrun.
  rewrite Htoken, Hreq in Hrun. cbv zeta in Hrun.
  destruct Hrun as (w1 & w3 & _ & _ & Hrun).
  unfold renew_result in Hrun. rewrite Hdo, Hbody in Hrun.
  rewrite (json_Unmarshal_parsed _ _ _ Hparse) in Hrun.
  split; [| intros ->; by exists w3].
  pose proof (decode_value_error v zero_record) as Herr.
  destruct (decode_value v zero_record) as [rec err] eqn:Hdec. simpl in Herr.
  destruct (accepted v) eqn:Hacc.
  - assert (err = None) as -> by (by apply Herr).
    exists rec, w3. split; [done |]. intros f Habs.
    rewrite <- zero_record_fields.
    destruct v as [| | | | |ms]; try done; simpl in Hdec.
    + by injection Hdec as <-.
    + change rec with (rec, @None error).1. rewrite <- Hdec.
      apply decode_members_absent. simpl in Habs. by destruct (selects f ms).
  - destruct err as [e|]; [by exists w3 |].
    enough (false = true) by done. by apply Herr.
Qed.

Lemma Renew_accepts_fitting_documents_witness :
  json_parse "{}" = Some (JObj [])
  ∧ ∃ w',
      Renew demo_lib demo_server "https://sso.example/token/renew" "empty" "cas" 0
        demo_world = Ret zero_record w'
      ∧ AccessToken zero_record = "" ∧ RefreshToken zero_record = "".
Proof.
  split; [vm_compute; reflexivity |].
  apply (Renew_accepts_fitting_documents demo_lib demo_server
           "https://sso.example/token/renew" "empty" "cas" 0 demo_world "empty"
           {| Method := "GET"; URL := "https://sso.example/token/renew"; Header := ∅ |}
           {| StatusCode := 401; Body := Ok "{}" |} "{}" (JObj []));
    vm_compute; reflexivity.
Defined.

(** * Further properties of the code *)

(** ** The token source reader *)

(** When [ReadToken] terminates the process it does so with status 1, having
    written to the log only, and the path existed. *)
Lemma ReadToken_exit r w s w' :
  ReadToken r w = Exit s w' → s = 1%Z ∧ logged w w' ∧ lookup_path (fs w) r ≠ None.
Proof.
  unfold ReadToken, bind at 1, read_fs at 1, os_Stat.
  destruct (lookup_path (fs w) r) as [nd|]; [| done].
  unfold bind at 1, read_fs at 1.
  destruct (ioutil_ReadFile (fs w) r) as [b|e]; [done |].
  destruct (@log_Fatalf_run string "Unable to read data from file: %s, error: %s" [r; e] w)
    as (w1 & Hrun & Hlog).
  rewrite Hrun. by intros [= <- <-].
Qed.

(** X1. A token path that exists but cannot be read as a file (it names a
    directory, or a file without read permission) is fatal: [ReadToken]
    terminates the process with status 1 and changes nothing but the log. *)
Theorem ReadToken_existing_unreadable_is_fatal (r : string) (w : World) :
  (∃ names listable, lookup_path (fs w) r = Some (Dir names listable))
  ∨ (∃ data writable, lookup_path (fs w) r = Some (File data false writable)) →
  ∃ w', ReadToken r w = Exit 1 w' ∧ logged w w'.
Proof.
  intros Hnode.
  assert (∃ e, ioutil_ReadFile (fs w) r = Err e ∧ lookup_path (fs w) r ≠ None)
    as (e & Hread & Hexists).
  { unfold ioutil_ReadFile.
    destruct Hnode as [(names & l & ->) | (data & wr & ->)]; eauto. }
  by eapply ReadToken_unreadable.
Qed.

Lemma ReadToken_existing_unreadable_is_fatal_witness :
  lookup_path (fs demo_world) "cas" = Some (Dir ["ca.pem"; "junk.txt"] true)
  ∧ ∃ w', ReadToken "cas" demo_world = Exit 1 w' ∧ logged demo_world w'.
Proof.
  split; [vm_compute; reflexivity |].
  apply ReadToken_existing_unreadable_is_fatal. left.
  exists ["ca.pem"; "junk.txt"], true. vm_compute. reflexivity.
Defined.

(** ** The trust store builder *)

(** X2. [Transport] never terminates the process, never touches the file
    system and never uses the network: it returns, and the world it leaves
    differs from the one it found by log lines only.  What it returns is a
    function of the file system and the directory, not of the verbosity. *)
Theorem Transport_only_logs (lib : GoLib) (rootCAs : string) (verbose : Z) (w : World) :
  ∃ w', Transport lib rootCAs verbose w = Ret (Transport_value lib (fs w) rootCAs) w'
        ∧ fs w' = fs w
        ∧ exchanges (trace w') = exchanges (trace w)
        ∧ silent (trace w') = silent (trace w).
Proof.
  destruct (Transport_run lib rootCAs verbose w) as (w' & Hrun & Hlog).
  exists w'. split; [exact Hrun |].
  split; [by apply logged_fs |]. split; [by apply logged_exchanges | by apply logged_silent].
Qed.

Lemma foldl_AddCert pool cs :
  (∀ c, c ∈ foldl AddCert pool cs ↔ c ∈ pool ∨ c ∈ cs)
  ∧ (NoDup pool → NoDup (foldl AddCert pool cs)).
Proof.
  revert pool. induction cs as [|c0 cs IH]; intros pool.
  { split; [| done]. intros c. rewrite elem_of_nil. tauto. }
  destruct (IH (AddCert pool c0)) as [IHin IHnd]. cbn [foldl]. split.
  - intros c. rewrite IHin, elem_of_cons. unfold AddCert.
    destruct (decide (c0 ∈ pool)) as [Hin|Hnin].
    + split; [tauto |]. intros [? | [-> | ?]]; tauto.
    + rewrite elem_of_app, list_elem_of_singleton. tauto.
  - intros Hnd. apply IHnd. unfold AddCert.
    destruct (decide (c0 ∈ pool)) as [Hin|Hnin]; [done |].
    apply NoDup_app. split; [done |]. split; [| apply NoDup_singleton].
    intros c Hc ->%list_elem_of_singleton. done.
Qed.

Lemma AppendCertsFromPEM_pool lib pool data :
  (∀ c, c ∈ (AppendCertsFromPEM lib pool data).1
        ↔ c ∈ pool ∨ (data ≠ "" ∧ c ∈ pem_certs lib data))
  ∧ (NoDup pool → NoDup (AppendCertsFromPEM lib pool data).1).
Proof.
  unfold AppendCertsFromPEM. destruct (decide (data = "")) as [->|Hne]; simpl.
  - split; [| done]. intros c. tauto.
  - destruct (foldl_AddCert pool (pem_certs lib data)) as [Hin Hnd].
    split; [| done]. intros c. rewrite Hin. tauto.
Qed.

Lemma pool_after_pool lib fs rootCAs files : ∀ pool,
  (∀ c, c ∈ pool_after lib fs rootCAs pool files
        ↔ c ∈ pool ∨ ∃ name, name ∈ files ∧ entry_data fs rootCAs name ≠ ""
                             ∧ c ∈ pem_certs lib (entry_data fs rootCAs name))
  ∧ (NoDup pool → NoDup (pool_after lib fs rootCAs pool files)).
Proof.
  induction files as [|name files IH]; intros pool.
  { split; [| done]. intros c. split; [tauto |].
    intros [? | (n & []%elem_of_nil & _)]. done. }
  unfold pool_after in *. cbn [foldl].
  destruct (IH (AppendCertsFromPEM lib pool (entry_data fs rootCAs name)).1) as [IHin IHnd].
  destruct (AppendCertsFromPEM_pool lib pool (entry_data fs rootCAs name)) as [Hin Hnd].
  split; [| by auto]. intros c. rewrite IHin, Hin. split.
  - intros [[? | [? ?]] | (n & Hn & ? & ?)]; [tauto | | ].
    + right. exists name. rewrite elem_of_cons. tauto.
    + right. exists n. rewrite elem_of_cons. tauto.
  - intros [? | (n & [-> | Hn]%elem_of_cons & ? & ?)]; [tauto | tauto |].
    right. by exists n.
Qed.

(** X3. For a directory that can be listed and is not empty, the pool of
    roots [Transport] returns holds exactly the certificates found in the
    entries that could be read (an unreadable entry contributes nothing), and
    none of them twice. *)
Theorem Transport_pool_contents (lib : GoLib) (rootCAs : string) (verbose : Z)
    (w : World) (files : list string) :
  ioutil_ReadDir (fs w) rootCAs = Ok files → files ≠ [] →
  ∃ pool w',
    Transport lib rootCAs verbose w
    = Ret (Some {| TLSClientConfig :=
                     {| RootCAs := Some pool; InsecureSkipVerify := false |} |},
           None) w'
    ∧ NoDup pool
    ∧ ∀ c, c ∈ pool
           ↔ ∃ name data, name ∈ files
                          ∧ ioutil_ReadFile (fs w) (rootCAs +:+ "/" +:+ name) = Ok data
                          ∧ data ≠ "" ∧ c ∈ pem_certs lib data.
Proof.
  intros Hdir Hne.
  destruct (Transport_listed lib rootCAs verbose w files Hdir) as (w' & Hrun & _).
  destruct (pool_after_pool lib (fs w) rootCAs files NewCertPool) as [Hin Hnd].
  exists (pool_after lib (fs w) rootCAs NewCertPool files), w'.
  split; [rewrite Hrun; by destruct files |]. split; [apply Hnd, NoDup_nil_2 |].
  intros c. rewrite Hin. unfold NewCertPool, entry_data. rewrite elem_of_nil. split.
  - intros [[] | (name & Hname & Hdata & Hc)].
    destruct (ioutil_ReadFile (fs w) (rootCAs +:+ "/" +:+ name)) as [data|e] eqn:Hread;
      [| done].
    by exists name, data.
  - intros (name & data & Hname & Hread & Hdata & Hc). right. exists name.
    by rewrite Hread.
Qed.

Lemma Transport_pool_contents_witness :
  ∃ pool w',
    Transport demo_lib "cas" 0 demo_world
    = Ret (Some {| TLSClientConfig :=
                     {| RootCAs := Some pool; InsecureSkipVerify := false |} |},
           None) w'
    ∧ NoDup pool
    ∧ ∀ c, c ∈ pool
           ↔ ∃ name data, name ∈ ["ca.pem"; "junk.txt"]
                          ∧ ioutil_ReadFile (fs demo_world) ("cas" +:+ "/" +:+ name) = Ok data
                          ∧ data ≠ "" ∧ c ∈ pem_certs demo_lib data.
Proof.
  apply (Transport_pool_contents demo_lib "cas" 0 demo_world ["ca.pem"; "junk.txt"]);
    [vm_compute; reflexivity | discriminate].
Defined.

Lemma Transport_entry_quiet lib rootCAs verbose st name w :
  (verbose ≤ 1)%Z →
  Transport_entry lib rootCAs verbose st name w
  = Ret ((AppendCertsFromPEM lib st.1 (entry_data (fs w) rootCAs name)).1, true) w.
Proof.
  intros Hv. unfold Transport_entry, entry_data, bind, read_fs, when, ret.
  rewrite !bool_decide_eq_false_2 by lia.
  destruct (ioutil_ReadFile (fs w) (rootCAs +:+ "/" +:+ name)) as [b|e];
    by destruct (AppendCertsFromPEM lib st.1 _) as [pool []].
Qed.

Lemma for_range_Transport_entry_quiet lib rootCAs verbose files w : ∀ st,
  (verbose ≤ 1)%Z →
  ∃ st', for_range (Transport_entry lib rootCAs verbose) st files w = Ret st' w.
Proof.
  induction files as [|name files IH]; intros st Hv; [by exists st |].
  cbn [for_range]. rewrite (bind_Ret _ _ _ _ _ (Transport_entry_quiet _ _ _ _ _ _ Hv)).
  by apply IH.
Qed.

(** X4. At verbosity 0 and 1 a directory that can be listed is loaded in
    silence: [Transport] returns in the very world it was called in, whatever
    the entries hold. *)
Theorem Transport_quiet (lib : GoLib) (rootCAs : string) (verbose : Z) (w : World)
    (files : list string) :
  (verbose ≤ 1)%Z → ioutil_ReadDir (fs w) rootCAs = Ok files →
  Transport lib rootCAs verbose w = Ret (Transport_value lib (fs w) rootCAs) w.
Proof.
  intros Hv Hdir.
  destruct (Transport_run lib rootCAs verbose w) as (w' & Hrun & _).
  rewrite Hrun. f_equal. revert Hrun. unfold Transport, bind at 1, read_fs at 1.
  rewrite Hdir.
  destruct (for_range_Transport_entry_quiet lib rootCAs verbose files w (NewCertPool, false) Hv)
    as ([pool certs] & Hloop).
  rewrite (bind_Ret _ _ _ _ _ Hloop). unfold ret. congruence.
Qed.

Lemma Transport_quiet_witness :
  Transport demo_lib "cas" 1 demo_world
  = Ret (Transport_value demo_lib (fs demo_world) "cas") demo_world.
Proof.
  apply (Transport_quiet demo_lib "cas" 1 demo_world ["ca.pem"; "junk.txt"]);
    [lia | vm_compute; reflexivity].
Defined.

(** ** The renewal client *)

Lemma http_NewRequest_Ok lib method url req0 :
  http_NewRequest lib method url = Ok req0 →
  req0 = {| Method := method; URL := url; Header := ∅ |}.
Proof. unfold http_NewRequest. destruct (NewRequest_error lib method url); congruence. Qed.

Lemma observable_world {A} (o : outcome A) :
  (observable o).1.2 = fs (outcome_world o)
  ∧ exchanges (observable o).2 = exchanges (trace (outcome_world o)).
Proof.
  destruct o as [a w0|s w0]; simpl; (split; [done |]); unfold silent;
    induction (trace w0) as [|e t IH]; try done;
    rewrite filter_cons; destruct e; simpl; by rewrite ?IH.
Qed.

(** X5. [Renew] never writes to the file system and sends at most one HTTP
    request, however it ends. *)
Theorem Renew_never_writes (lib : GoLib)
    (http_Do : list (http_Client * http_Request) → result http_Response)
    (uri token rootCAs : string) (verbose : Z) (w : World) :
  let w' := outcome_world (Renew lib http_Do uri token rootCAs verbose w) in
  fs w' = fs w
  ∧ (exchanges (trace w') = exchanges (trace w)
     ∨ ∃ c req, exchanges (trace w') = (c, req) :: exchanges (trace w)).
Proof.
  intros w'. subst w'.
  destruct (observable_world (Renew lib http_Do uri token rootCAs verbose w)) as [<- <-].
  rewrite Renew_observable_eq. unfold Renew_observable.
  destruct (ReadToken token w) as [t w0|s w0] eqn:Htoken.
  - destruct (http_NewRequest lib "GET" uri) as [req0|e]; simpl.
    + split; [done |]. right. eexists _, _. f_equal.
      destruct (observable_world (Ret () w)) as [_ Hex]. exact Hex.
    + split; [done |]. left.
      destruct (observable_world (Ret () w)) as [_ Hex]. exact Hex.
  - apply ReadToken_exit in Htoken as (_ & Hlog & _). simpl.
    split; [by apply logged_fs |]. left.
    destruct (observable_world (Ret () w0)) as [_ Hex]. simpl in Hex. rewrite Hex.
    by apply logged_exchanges.
Qed.

(** X6. When the token resolves to [t] and the request can be built, the
    request [Renew] sends is a GET of [uri] whose headers are exactly Accept:
    application/json and Authorization: Bearer [t].  When the directory can
    be listed, the client holds the transport [Transport] built from the
    listing; when it cannot, so that [Transport] returns an error, the request
    is sent with the default client, whose transport is the nil interface,
    and not with the nil pointer [Transport] returned. *)
Theorem Renew_request_shape (lib : GoLib)
    (http_Do : list (http_Client * http_Request) → result http_Response)
    (uri token rootCAs : string) (verbose : Z) (w : World) (t : string) :
  ReadToken token w = Ret t w →
  NewRequest_error lib "GET" uri = None →
  ∃ c req,
    exchanges (trace (outcome_world (Renew lib http_Do uri token rootCAs verbose w)))
    = (c, req) :: exchanges (trace w)
    ∧ Method req = "GET" ∧ URL req = uri
    ∧ Header req = <["Accept" := ["application/json"]]>
                     (<["Authorization" := ["Bearer " +:+ t]]> ∅)
    ∧ match ioutil_ReadDir (fs w) rootCAs with
      | Ok files =>
          c = {| cl_Transport :=
                   TransportPtr
                     (Some {| TLSClientConfig := listed_config lib (fs w) rootCAs files |}) |}
      | Err _ => c = default_client ∧ cl_Transport c = NoRoundTripper
      end.
Proof.
  intros Htoken Hurl.
  assert (http_NewRequest lib "GET" uri = Ok {| Method := "GET"; URL := uri; Header := ∅ |})
    as Hreq by (unfold http_NewRequest; by rewrite Hurl).
  pose proof (Renew_run lib http_Do uri token rootCAs verbose w) as Hrun.
  rewrite Htoken, Hreq in Hrun. cbv zeta in Hrun.
  destruct Hrun as (w1 & w3 & L1 & L3 & ->).
  assert (exchanges (trace w3)
          = (renew_client lib (fs w) rootCAs,
             renew_request {| Method := "GET"; URL := uri; Header := ∅ |} t)
            :: exchanges (trace w)) as Hex.
  { rewrite (logged_exchanges _ _ L3). simpl. by rewrite (logged_exchanges _ _ L1). }
  exists (renew_client lib (fs w) rootCAs),
         (renew_request {| Method := "GET"; URL := uri; Header := ∅ |} t).
  split; [rewrite <- Hex; by destruct (renew_result _) |].
  do 3 (split; [done |]).
  unfold renew_client, Transport_value.
  by destruct (ioutil_ReadDir (fs w) rootCAs).
Qed.

Lemma Renew_request_shape_witness :
  ∃ c req,
    exchanges (trace (outcome_world
      (Renew demo_lib demo_server "https://sso.example/token/renew" "token.txt" "missing" 0
         demo_world)))
    = (c, req) :: exchanges (trace demo_world)
    ∧ Method req = "GET" ∧ URL req = "https://sso.example/token/renew"
    ∧ Header req = <["Accept" := ["application/json"]]>
                     (<["Authorization" := ["Bearer " +:+ "abcdef"]]> ∅)
    ∧ match ioutil_ReadDir (fs demo_world) "missing" with
      | Ok files =>
          c = {| cl_Transport :=
                   TransportPtr
                     (Some {| TLSClientConfig :=
                                listed_config demo_lib (fs demo_world) "missing" files |}) |}
      | Err _ => c = default_client ∧ cl_Transport c = NoRoundTripper
      end.
Proof.
  apply (Renew_request_shape demo_lib demo_server "https://sso.example/token/renew"
           "token.txt" "missing" 0 demo_world "abcdef"); vm_compute; reflexivity.
Defined.

(** X7. [Renew] never looks at the status code of the answer: with every
    status replaced by any other, it returns the same record or ends with the
    same exit status, after the same request.  (A 401 whose body is a JSON
    object is a successful renewal.) *)
Theorem Renew_ignores_status (lib : GoLib)
    (http_Do : list (http_Client * http_Request) → result http_Response)
    (status : Z) (uri token rootCAs : string) (verbose : Z) (w : World) :
  observable (Renew lib (with_status status http_Do) uri token rootCAs verbose w)
  = observable (Renew lib http_Do uri token rootCAs verbose w).
Proof.
  rewrite !Renew_observable_eq. unfold Renew_observable.
  destruct (ReadToken token w) as [t w0|s w0]; [| done].
  destruct (http_NewRequest lib "GET" uri) as [req0|e]; [| done].
  cbv zeta. do 2 f_equal. unfold renew_result, with_status.
  by destruct (http_Do _) as [resp|e].
Qed.

(** X8. There is no retry and no fallback: when the request fails on the
    network, when the body of the answer cannot be read, or when the body is
    not well-formed JSON, [Renew] terminates the process with status 1, after
    that one request, the file system untouched. *)
Theorem Renew_failure_is_fatal (lib : GoLib)
    (http_Do : list (http_Client * http_Request) → result http_Response)
    (uri token rootCAs : string) (verbose : Z) (w : World) (t : string)
    (req0 : http_Request) :
  ReadToken token w = Ret t w →
  http_NewRequest lib "GET" uri = Ok req0 →
  let c := renew_client lib (fs w) rootCAs in
  let req := renew_request req0 t in
  let answer := http_Do ((c, req) :: exchanges (trace w)) in
  (∃ err, answer = Err err)
  ∨ (∃ resp err, answer = Ok resp ∧ Body resp = Err err)
  ∨ (∃ resp data, answer = Ok resp ∧ Body resp = Ok data ∧ json_parse data = None) →
  ∃ w', Renew lib http_Do uri token rootCAs verbose w = Exit 1 w'
        ∧ fs w' = fs w
        ∧ exchanges (trace w') = (c, req) :: exchanges (trace w).
Proof.
  intros Htoken Hreq c req answer Hfail.
  pose proof (Renew_run lib http_Do uri token rootCAs verbose w) as Hrun.
  rewrite Htoken, Hreq in Hrun. cbv zeta in Hrun.
  destruct Hrun as (w1 & w3 & L1 & L3 & Hrun).
  fold c req answer in L3, Hrun.
  assert (renew_result answer = None) as Hnone.
  { unfold renew_result, json_Unmarshal.
    destruct Hfail as [[e ->] | [(resp & e & -> & ->) | (resp & data & -> & -> & ->)]]; done. }
  rewrite Hnone in Hrun. exists w3. split; [done |].
  split; [by rewrite (logged_fs _ _ L3) |].
  rewrite (logged_exchanges _ _ L3). simpl. by rewrite (logged_exchanges _ _ L1).
Qed.

Lemma Renew_failure_is_fatal_witness :
  ∃ w', Renew demo_lib demo_server "https://sso.example/token/renew" "unknown" "cas" 0
          demo_world = Exit 1 w'
        ∧ fs w' = fs demo_world
        ∧ exchanges (trace w')
          = (renew_client demo_lib (fs demo_world) "cas",
             renew_request
               {| Method := "GET"; URL := "https://sso.example/token/renew"; Header := ∅ |}
               "unknown") :: exchanges (trace demo_world).
Proof.
  apply (Renew_failure_is_fatal demo_lib demo_server "https://sso.example/token/renew"
           "unknown" "cas" 0 demo_world "unknown"
           {| Method := "GET"; URL := "https://sso.example/token/renew"; Header := ∅ |});
    [vm_compute; reflexivity | vm_compute; reflexivity |].
  left. eexists. vm_compute. reflexivity.
Defined.

(** X9. A renewal address that [http.NewRequest] rejects is fatal before
    anything is sent: [Renew] terminates the process with status 1 and the
    token never leaves the machine. *)
Theorem Renew_bad_address_sends_nothing (lib : GoLib)
    (http_Do : list (http_Client * http_Request) → result http_Response)
    (uri token rootCAs : string) (verbose : Z) (w : World) (err : error) :
  NewRequest_error lib "GET" uri = Some err →
  ∃ w', Renew lib http_Do uri token rootCAs verbose w = Exit 1 w'
        ∧ logged w w'
        ∧ exchanges (trace w') = exchanges (trace w).
Proof.
  intros Hurl.
  assert (http_NewRequest lib "GET" uri = Err err) as Hreq
    by (unfold http_NewRequest; by rewrite Hurl).
  pose proof (Renew_run lib http_Do uri token rootCAs verbose w) as Hrun.
  rewrite Hreq in Hrun.
  destruct (ReadToken token w) as [t w0|s w0] eqn:Htoken.
  - destruct Hrun as (w' & -> & Hlog). eauto using logged_exchanges.
  - apply ReadToken_exit in Htoken as (-> & Hlog & _).
    exists w0. eauto using logged_exchanges.
Qed.

Lemma Renew_bad_address_sends_nothing_witness :
  ∃ w', Renew demo_lib demo_server ("https://sso.example" +:+ LF) "T0" "cas" 0 demo_world
        = Exit 1 w'
        ∧ logged demo_world w'
        ∧ exchanges (trace w') = exchanges (trace demo_world).
Proof.
  apply (Renew_bad_address_sends_nothing demo_lib demo_server
           ("https://sso.example" +:+ LF) "T0" "cas" 0 demo_world
           "net/url: invalid control character in URL").
  vm_compute. reflexivity.
Defined.

(** A run of [Renew] that returns: the token resolved, the request was built
    and answered, and the record is what the body decodes to, without error. *)
Lemma Renew_Ret_inv lib http_Do uri token rootCAs verbose w rec w' :
  Renew lib http_Do uri token rootCAs verbose w = Ret rec w' →
  ∃ t req0 resp data,
    ReadToken token w = Ret t w
    ∧ http_NewRequest lib "GET" uri = Ok req0
    ∧ http_Do ((renew_client lib (fs w) rootCAs, renew_request req0 t)
               :: exchanges (trace w)) = Ok resp
    ∧ Body resp = Ok data
    ∧ json_Unmarshal data zero_record = (rec, None)
    ∧ fs w' = fs w
    ∧ silent (trace w')
      = EvDo (renew_client lib (fs w) rootCAs) (renew_request req0 t) :: silent (trace w).
Proof.
  intros Hret.
  pose proof (Renew_run lib http_Do uri token rootCAs verbose w) as Hrun.
  destruct (ReadToken token w) as [t w0|s w0] eqn:Htoken; [| congruence].
  pose proof (ReadToken_world _ _ _ _ Htoken) as ->.
  destruct (http_NewRequest lib "GET" uri) as [req0|e];
    [| destruct Hrun as (? & ? & _); congruence].
  cbv zeta in Hrun. destruct Hrun as (w1 & w3 & L1 & L3 & Hrun).
  rewrite Hret in Hrun. unfold renew_result in Hrun.
  destruct (http_Do _) as [resp|e] eqn:Hdo; [| done].
  destruct (Body resp) as [data|e] eqn:Hbody; [| done].
  destruct (json_Unmarshal data zero_record) as [rec0 [e|]] eqn:Hdec; [done |].
  injection Hrun as -> ->.
  exists t, req0, resp, data. repeat (split; [done |]).
  split; [by rewrite (logged_fs _ _ L3) |].
  rewrite (logged_silent _ _ L3). simpl.
  by rewrite silent_cons_Do, (logged_silent _ _ L1).
Qed.

(** ** Decoding a response body, continued *)

Lemma digits_value_nondigit c ds : ∀ acc,
  occurs c ds = true → is_digit c = false → digits_value acc ds = None.
Proof.
  induction ds as [|d ds IH]; intros acc Hocc Hc; [done |].
  cbn [occurs] in Hocc. cbn [digits_value].
  destruct (decide (c = d)) as [<-|_]; [by rewrite Hc |].
  destruct (is_digit d); [by apply IH | done].
Qed.

Lemma digits_value_head c ds acc n :
  digits_value acc (String c ds) = Some n → is_digit c = true.
Proof. cbn [digits_value]. by destruct (is_digit c). Qed.

(** [strconv.ParseInt] refuses what is no 64-bit integer. *)
Lemma no_int64_parse lit : no_int64 lit → parse_int64 lit = None.
Proof.
  assert (∀ c, is_digit c = false → code c ≠ 45%Z → occurs c lit = true →
               parse_int64 lit = None) as Hfrac.
  { intros c Hc Hminus Hocc. unfold parse_int64. destruct lit as [|a r]; [done |].
    destruct (decide (code a = 45)%Z) as [Ha|Ha].
    - destruct (decide (r = "")); [done |].
      cbn [occurs] in Hocc. destruct (decide (c = a)) as [->|_]; [done |].
      by rewrite (digits_value_nondigit c r 0 Hocc Hc).
    - rewrite decide_False by done.
      by rewrite (digits_value_nondigit c (String a r) 0 Hocc Hc). }
  intros [(ds & n & Hds & [[-> Hn] | [-> Hn]]) | [Hocc | [Hocc | Hocc]]];
    [| | by apply (λ H1 H2, Hfrac _ H1 H2 Hocc) ..].
  - unfold parse_int64. destruct ds as [|c ds].
    { injection Hds as <-. lia. }
    pose proof (digits_value_head _ _ _ _ Hds) as Hc.
    assert (code c ≠ 45)%Z as Hne.
    { unfold is_digit, between in Hc. apply bool_decide_eq_true in Hc. lia. }
    rewrite decide_False by done. rewrite decide_False by done. rewrite Hds. simpl.
    rewrite decide_False by lia. done.
  - unfold parse_int64. rewrite decide_True by done.
    destruct (decide (ds = "")) as [->|_]; [done |]. rewrite Hds. simpl.
    rewrite decide_False by lia. done.
Qed.

Lemma members_fit_member ms key v f :
  (key, v) ∈ ms → find_field key = Some f → fits f v = false → members_fit ms = false.
Proof.
  intros Hin Hf Hfit. unfold members_fit.
  apply not_true_is_false. intros Hall.
  rewrite forallb_forall in Hall. apply list_elem_of_In in Hin.
  specialize (Hall _ Hin). simpl in Hall. rewrite Hf in Hall. congruence.
Qed.

(** X10. A number that is no 64-bit integer is never wrapped or truncated
    into the record.  When a member of the answer selects one of the two
    expiries and its value is an integer outside the range of int64, or a
    number with a fraction or an exponent, [json.Unmarshal] reports an error
    and [Renew] terminates the process with status 1; no record is returned
    and the file system is untouched. *)
Theorem Renew_number_out_of_range_is_fatal (lib : GoLib)
    (http_Do : list (http_Client * http_Request) → result http_Response)
    (uri token rootCAs : string) (verbose : Z) (w : World) (t : string)
    (req0 : http_Request) (resp : http_Response) (data : string)
    (ms : list (string * json)) (key lit : string) (f : field) :
  ReadToken token w = Ret t w →
  http_NewRequest lib "GET" uri = Ok req0 →
  http_Do ((renew_client lib (fs w) rootCAs, renew_request req0 t)
             :: exchanges (trace w)) = Ok resp →
  Body resp = Ok data →
  json_parse data = Some (JObj ms) →
  (key, JNum lit) ∈ ms →
  find_field key = Some f →
  f = FAccessTokenExpire ∨ f = FRefreshTokenExpire →
  no_int64 lit →
  ∃ w', Renew lib http_Do uri token rootCAs verbose w = Exit 1 w' ∧ fs w' = fs w.
Proof.
  intros Htoken Hreq Hanswer Hbody Hparse Hin Hfield Hf Hlit.
  pose proof (Renew_run lib http_Do uri token rootCAs verbose w) as Hrun.
  rewrite Htoken, Hreq in Hrun. cbv zeta in Hrun.
  destruct Hrun as (w1 & w3 & L1 & L3 & Hrun).
  assert (renew_result (http_Do ((renew_client lib (fs w) rootCAs, renew_request req0 t)
                                   :: exchanges (trace w))) = None) as Hnone.
  { rewrite Hanswer. unfold renew_result. rewrite Hbody.
    rewrite (json_Unmarshal_parsed _ _ _ Hparse).
    pose proof (decode_value_error (JObj ms) zero_record) as Herr.
    destruct (decode_value (JObj ms) zero_record) as [rec [e|]]; [done |].
    exfalso. cbn [snd accepted] in Herr.
    assert (members_fit ms = false) as Hfit; [| rewrite Hfit in Herr; by destruct Herr as [Herr _]; discriminate (Herr eq_refl)].
    apply (members_fit_member ms key (JNum lit) f Hin Hfield).
    unfold fits. rewrite (no_int64_parse lit Hlit). by destruct Hf as [-> | ->]. }
  rewrite Hnone in Hrun. exists w3. split; [done |].
  by rewrite (logged_fs _ _ L3).
Qed.

Lemma Renew_number_out_of_range_is_fatal_witness :
  ∃ w', Renew demo_lib demo_overflow_server "https://sso.example/token/renew" "T0" "cas" 0
          demo_world = Exit 1 w'
        ∧ fs w' = fs demo_world.
Proof.
  apply (Renew_number_out_of_range_is_fatal demo_lib demo_overflow_server
           "https://sso.example/token/renew" "T0" "cas" 0 demo_world "T0"
           {| Method := "GET"; URL := "https://sso.example/token/renew"; Header := ∅ |}
           {| StatusCode := 200;
              Body := Ok (json_text
                "{'access_token':'A1','expires_in':9223372036854775808}") |}
           (json_text "{'access_token':'A1','expires_in':9223372036854775808}")
           [("access_token", JStr "A1"); ("expires_in", JNum "9223372036854775808")]
           "expires_in" "9223372036854775808" FAccessTokenExpire).
  - vm_compute. reflexivity.
  - vm_compute. reflexivity.
  - reflexivity.
  - reflexivity.
  - vm_compute. reflexivity.
  - apply elem_of_cons. right. apply elem_of_cons. by left.
  - vm_compute. reflexivity.
  - by left.
  - left. exists "9223372036854775808", 9223372036854775808%Z.
    split; [vm_compute; reflexivity |]. left. split; [reflexivity |].
    vm_compute. discriminate.
Defined.

Lemma get_set_string f s rec :
  field_type f = TString → get_field f (set_string f s rec) = VString s.
Proof. by destruct f. Qed.

Lemma get_set_int f n rec :
  field_type f = TInt64 → get_field f (set_int f n rec) = VInt n.
Proof. by destruct f. Qed.

Lemma decode_members_last f k v ms' ms : ∀ rec saved,
  find_field k = Some f → selects f ms' = false →
  get_field f (decode_members (ms ++ (k, v) :: ms') rec saved).1
  = get_field f (store_field f v (decode_members ms rec saved).1).1.
Proof.
  intros rec saved Hk Habs. revert rec saved.
  induction ms as [|[key u] ms IH]; intros rec saved; simpl.
  - rewrite Hk. destruct (store_field f v rec) as [rec' err].
    by rewrite decode_members_absent.
  - destruct (find_field key) as [g|]; [| apply IH].
    destruct (store_field g u rec) as [rec' err]. apply IH.
Qed.

(** X11. When several members of the object select the same field (the same
    name twice, or names that differ in case), the last one decides: a string
    in it becomes the value of a string field, an integer literal of the
    64-bit range the value of an integer field. *)
Theorem Unmarshal_last_member_wins (data : string) (ms ms' : list (string * json))
    (k : string) (v : json) (f : field) :
  json_parse data = Some (JObj (ms ++ (k, v) :: ms')%list) →
  find_field k = Some f →
  selects f ms' = false →
  let rec := (json_Unmarshal data zero_record).1 in
  (∀ s, v = JStr s → field_type f = TString → get_field f rec = VString s)
  ∧ (∀ lit n, v = JNum lit → field_type f = TInt64 → parse_int64 lit = Some n →
     get_field f rec = VInt n).
Proof.
  intros Hparse Hk Habs rec. subst rec.
  rewrite (json_Unmarshal_parsed _ _ _ Hparse). simpl.
  rewrite (decode_members_last f k v ms' ms _ _ Hk Habs). split.
  - intros s -> Hty. unfold store_field. rewrite Hty. simpl. by apply get_set_string.
  - intros lit n -> Hty Hn. unfold store_field. rewrite Hty, Hn. simpl.
    by apply get_set_int.
Qed.

Lemma Unmarshal_last_member_wins_witness :
  get_field FIdToken
    (json_Unmarshal (json_text "{'id_token':'a','ID_TOKEN':'b','other':[1]}") zero_record).1
  = VString "b".
Proof.
  apply (Unmarshal_last_member_wins
           (json_text "{'id_token':'a','ID_TOKEN':'b','other':[1]}")
           [("id_token", JStr "a")] [("other", JArr [JNum "1"])] "ID_TOKEN" (JStr "b")
           FIdToken);
    vm_compute; reflexivity.
Defined.

Lemma decode_members_unknown k v ms' ms : ∀ rec saved,
  find_field k = None →
  decode_members (ms ++ (k, v) :: ms') rec saved = decode_members (ms ++ ms') rec saved.
Proof.
  intros rec saved Hk. revert rec saved.
  induction ms as [|[key u] ms IH]; intros rec saved; simpl.
  - by rewrite Hk.
  - destruct (find_field key) as [g|]; [| apply IH].
    destruct (store_field g u rec) as [rec' err]. apply IH.
Qed.

(** X12. A member whose name selects no field of the record is ignored,
    whatever its value: two bodies that differ by such a member decode to the
    same record with the same error, if any. *)
Theorem Unmarshal_ignores_unknown_member (data1 data2 : string)
    (ms ms' : list (string * json)) (k : string) (v : json) (rec : TokenRecord) :
  json_parse data1 = Some (JObj (ms ++ (k, v) :: ms')%list) →
  json_parse data2 = Some (JObj (ms ++ ms')%list) →
  find_field k = None →
  json_Unmarshal data1 rec = json_Unmarshal data2 rec.
Proof.
  intros H1 H2 Hk.
  rewrite (json_Unmarshal_parsed _ _ _ H1), (json_Unmarshal_parsed _ _ _ H2). simpl.
  by apply decode_members_unknown.
Qed.

Lemma Unmarshal_ignores_unknown_member_witness :
  json_Unmarshal (json_text "{'access_token':'A','scope':{'x':[1,2]},'expires_in':7}")
    zero_record
  = json_Unmarshal (json_text "{'access_token':'A','expires_in':7}") zero_record.
Proof.
  apply (Unmarshal_ignores_unknown_member _ _ [("access_token", JStr "A")]
           [("expires_in", JNum "7")] "scope"
           (JObj [("x", JArr [JNum "1"; JNum "2"])]));
    vm_compute; reflexivity.
Defined.

Lemma fold_field_names :
  fold_name (field_name FAccessToken) = "ACCESS_TOKEN"
  ∧ fold_name (field_name FAccessTokenExpire) = "EXPIRES_IN"
  ∧ fold_name (field_name FRefreshToken) = "REFRESH_TOKEN"
  ∧ fold_name (field_name FRefreshTokenExpire) = "REFRESH_EXPIRES_IN"
  ∧ fold_name (field_name FIdToken) = "ID_TOKEN".
Proof. vm_compute. done. Qed.

(** A member name selects a field exactly when their folded forms agree. *)
Lemma find_field_fold key f :
  find_field key = Some f ↔ fold_name key = fold_name (field_name f).
Proof.
  destruct fold_field_names as (H1 & H2 & H3 & H4 & H5).
  unfold find_field, fields, first_field.
  rewrite H1, H2, H3, H4, H5.
  repeat case_bool_decide; subst;
    try (match goal with H : field_name _ = key |- _ => rewrite <- H end);
    destruct f; rewrite ?H1, ?H2, ?H3, ?H4, ?H5;
    split; intros Heq; try done; try congruence.
Qed.

Lemma code_range a : (0 ≤ code a < 256)%Z.
Proof. unfold code. pose proof (N_ascii_bounded a). lia. Qed.

Lemma code_inj a b : code a = code b → a = b.
Proof.
  unfold code. intros Heq%(inj Z.of_N).
  by rewrite <- (ascii_N_embedding a), <- (ascii_N_embedding b), Heq.
Qed.

Lemma code_chr z : (0 ≤ z < 256)%Z → code (chr z) = z.
Proof. intros Hz. unfold code, chr. rewrite N_ascii_embedding; lia. Qed.

Lemma code_upper a :
  code (upper a) = if between 97 122 a then (code a - 32)%Z else code a.
Proof.
  unfold upper, between. case_bool_decide; [| done].
  apply code_chr. lia.
Qed.

Lemma upper_same_letter a b : upper a = upper b ↔ same_letter a b = true.
Proof.
  pose proof (code_range a). pose proof (code_range b).
  assert (upper a = upper b ↔ code (upper a) = code (upper b)) as ->
    by (split; [by intros -> | apply code_inj]).
  assert (bool_decide (a = b) = bool_decide (code a = code b)) as Hab
    by (apply bool_decide_ext; split; [by intros -> | apply code_inj]).
  rewrite !code_upper. unfold same_letter, between. rewrite Hab.
  repeat case_bool_decide; simpl; split; intros; try done; lia.
Qed.

Lemma map_upper_equal s : ∀ t,
  map_upper s = map_upper t ↔ equal_up_to_case s t = true.
Proof.
  induction s as [|a s IH]; intros [|b t]; cbn [map_upper equal_up_to_case]; try done.
  rewrite andb_true_iff, <- IH, <- upper_same_letter.
  split; [by intros [= -> ->] | by intros [-> ->]].
Qed.

Lemma fold_name_ascii_head a r :
  (code a < 128)%Z → fold_name (String a r) = String (upper a) (fold_name r).
Proof.
  intros Ha. unfold upper.
  destruct r as [|b [|c r2]]; cbn [fold_name]; destruct (between 97 122 a); try done.
  - destruct (decide (code a = 197 ∧ code b = 191)%Z) as [[? ?]|_]; [lia | done].
  - destruct (decide (code a = 197 ∧ code b = 191)%Z) as [[? ?]|_]; [lia |].
    destruct (decide (code a = 226 ∧ code b = 132 ∧ code c = 170)%Z) as [[? ?]|_];
      [lia | done].
Qed.

Lemma fold_name_ascii s : all_ascii s = true → fold_name s = map_upper s.
Proof.
  induction s as [|a s IH]; [done |].
  cbn [all_ascii map_upper]. intros [Ha Hs]%andb_true_iff.
  apply bool_decide_eq_true in Ha.
  by rewrite fold_name_ascii_head, IH.
Qed.

(** X13. The tags of the record are matched without regard to the case of
    the letters: a member name made of ASCII bytes selects a field exactly
    when it has the length of the field's tag and differs from it at most in
    the case of letters.  So ACCESS_TOKEN and Access_Token select the field
    tagged access_token, and access-token selects none. *)
Theorem find_field_ignores_case (key : string) (f : field) :
  all_ascii key = true →
  (find_field key = Some f ↔ equal_up_to_case key (field_name f) = true).
Proof.
  intros Hkey. rewrite find_field_fold, <- map_upper_equal.
  rewrite (fold_name_ascii key Hkey).
  rewrite (fold_name_ascii (field_name f)) by (by destruct f).
  done.
Qed.

Lemma find_field_ignores_case_witness :
  find_field "Access_TOKEN" = Some FAccessToken
  ↔ equal_up_to_case "Access_TOKEN" (field_name FAccessToken) = true.
Proof.
  apply (find_field_ignores_case "Access_TOKEN" FAccessToken). reflexivity.
Defined.

(** ** The main loop *)

Lemma keeps_bind {A B} (R : World → World → Prop) (m : M A) (k : A → M B) :
  (∀ w1 w2 w3, R w1 w2 → R w2 w3 → R w1 w3) →
  keeps R m → (∀ a, keeps R (k a)) → keeps R (bind m k).
Proof.
  intros Htrans Hm Hk w. unfold bind. specialize (Hm w).
  destruct (m w) as [a w1|s w1]; [| done].
  eapply Htrans; [exact Hm | apply Hk].
Qed.

Lemma keeps_ret {A} (R : World → World → Prop) (a : A) :
  (∀ w, R w w) → keeps R (ret a).
Proof. intros Hrefl w. apply Hrefl. Qed.

Lemma keeps_logged {A} (R : World → World → Prop) (m : M A) :
  (∀ w w', logged w w' → R w w') →
  (∀ w, logged w (outcome_world (m w))) → keeps R m.
Proof. intros HR Hm w. apply HR, Hm. Qed.

Lemma touches_only_refl out w : touches_only out w w.
Proof. split; [done |]. split; [done |]. intros p _. by left. Qed.

Lemma touches_only_trans out w1 w2 w3 :
  touches_only out w1 w2 → touches_only out w2 w3 → touches_only out w1 w3.
Proof.
  intros (He1 & Hx1 & Hp1) (He2 & Hx2 & Hp2). split; [| split].
  - intros Ho. by rewrite He2, He1.
  - intros Hout. destruct (Hx1 Hout) as [Hout2 Hsame1].
    destruct (Hx2 Hout2) as [Hout3 Hsame2]. split; [done |].
    intros p Hp. by rewrite Hsame2, Hsame1.
  - intros p Hp.
    destruct (Hp1 p Hp) as [Hs1 | (Hd1 & names & l & Hn1 & Hn2)],
             (Hp2 p Hp) as [Hs2 | (Hd2 & names' & l' & Hn2' & Hn3)].
    + left. by rewrite Hs2, Hs1.
    + right. split; [done |]. exists names', l'. by rewrite <- Hs1.
    + right. split; [done |]. exists names, l. by rewrite Hs2.
    + right. split; [done |]. exists names, l. split; [done |].
      rewrite Hn2 in Hn2'. injection Hn2' as <- <-. by rewrite Hn3, add_name_idemp.
Qed.

Lemma touches_only_same_fs out w w' : fs w' = fs w → touches_only out w w'.
Proof.
  intros Hfs. split; [done |]. split.
  - intros Hout. rewrite Hfs. split; [done |]. by intros p _.
  - intros p _. left. by rewrite Hfs.
Qed.

Lemma touches_only_logged out w w' : logged w w' → touches_only out w w'.
Proof. intros Hlog. by apply touches_only_same_fs, logged_fs. Qed.

Lemma log_only_logged (m : M unit) w : log_only m → logged w (outcome_world (m w)).
Proof. intros Hm. destruct (Hm w) as (w' & -> & Hlog). done. Qed.

Lemma Renew_same_fs lib http_Do uri token rootCAs verbose w :
  fs (outcome_world (Renew lib http_Do uri token rootCAs verbose w)) = fs w.
Proof.
  destruct (observable_world (Renew lib http_Do uri token rootCAs verbose w)) as [<- _].
  rewrite Renew_observable_eq. unfold Renew_observable.
  destruct (ReadToken token w) as [t w0|s w0] eqn:Htoken.
  - by destruct (http_NewRequest lib "GET" uri).
  - apply ReadToken_exit in Htoken as (_ & Hlog & _). by apply logged_fs.
Qed.

Lemma Renew_keeps_touches_only lib http_Do out uri token rootCAs verbose :
  keeps (touches_only out) (Renew lib http_Do uri token rootCAs verbose).
Proof. intros w. apply touches_only_same_fs, Renew_same_fs. Qed.

Lemma write_out_keeps_touches_only out rec :
  keeps (touches_only out) (write_out out rec).
Proof.
  intros w. pose proof (write_out_run out rec w) as Hrun.
  destruct (decide (out = "")) as [Ho|Ho]; [rewrite Hrun; apply touches_only_refl |].
  destruct (ioutil_WriteFile (fs w) out (AccessToken rec)) as [fs'|e] eqn:Hw.
  - rewrite Hrun. cbn [outcome_world].
    apply ioutil_WriteFile_Ok in Hw
      as (_ & [(d & r & Hfile & ->) | (Hnew & names & l & Hdir & Hbase & ->)]).
    + split; [done |]. split; cbn [fs].
      * intros _. split; [by rewrite lookup_insert_eq |].
        intros p Hp. by rewrite lookup_insert_ne.
      * intros p Hp. left. by rewrite lookup_insert_ne.
    + split; [done |]. split; cbn [fs]; [done |].
      intros p Hp. rewrite lookup_insert_ne by done.
      destruct (decide (p = dirname out)) as [->|Hd].
      * right. split; [done |]. exists names, l. by rewrite lookup_insert_eq.
      * left. by rewrite lookup_insert_ne.
  - destruct Hrun as (w' & -> & Hlog). by apply touches_only_logged.
Qed.

Lemma printRecord_keeps_touches_only lib out rec verbose :
  keeps (touches_only out) (printRecord lib rec verbose).
Proof.
  apply keeps_logged; [apply touches_only_logged |].
  intros w. apply log_only_logged, printRecord_log_only.
Qed.

Lemma daemon_turn_keeps_touches_only lib http_Do rurl out rootCAs verbose interval rec :
  keeps (touches_only out)
    (daemon_turn lib http_Do rurl out rootCAs verbose interval rec).
Proof.
  unfold daemon_turn.
  apply keeps_bind; [apply touches_only_trans | |]; [| intros _].
  { intros w. apply touches_only_same_fs. done. }
  apply keeps_bind; [apply touches_only_trans | apply Renew_keeps_touches_only |].
  intros rec'.
  apply keeps_bind; [apply touches_only_trans | apply write_out_keeps_touches_only |].
  intros _.
  apply keeps_bind; [apply touches_only_trans | apply printRecord_keeps_touches_only |].
  intros _. apply keeps_ret, touches_only_refl.
Qed.

Lemma daemon_keeps_touches_only lib http_Do rurl out rootCAs verbose interval n : ∀ rec,
  keeps (touches_only out) (daemon lib http_Do n rurl out rootCAs verbose interval rec).
Proof.
  induction n as [|n IH]; intros rec; cbn [daemon].
  - apply keeps_ret, touches_only_refl.
  - apply keeps_bind; [apply touches_only_trans | apply daemon_turn_keeps_touches_only |].
    apply IH.
Qed.

(** X14. With a root-CA directory given on the command line, a run of [main]
    changes the file system at most at the output path and, when it makes the
    output file, in the listing of the directory the file is made in, which
    gains the file's name; this however long it runs and however it ends.  If
    the output path is in the file system already, no other path changes;
    without an output path nothing changes at all. *)
Theorem main_touches_only_out (lib : GoLib)
    (http_Do : list (http_Client * http_Request) → result http_Response)
    (LoadCAs : Z → M (string * option error)) (n : nat) (f : Flags) (w : World) :
  f_rootCAs f ≠ "" →
  let w' := outcome_world (main lib http_Do LoadCAs n f w) in
  (f_out f = "" → fs w' = fs w)
  ∧ (fs w !! f_out f ≠ None → ∀ p, p ≠ f_out f → fs w' !! p = fs w !! p)
  ∧ (∀ p, p ≠ f_out f →
       fs w' !! p = fs w !! p
       ∨ (p = dirname (f_out f)
          ∧ ∃ names listable,
              fs w !! p = Some (Dir names listable)
              ∧ fs w' !! p
                = Some (Dir (add_name (basename (f_out f)) names) listable))).
Proof.
  intros Hroot w'.
  enough (touches_only (f_out f) w w') as (He & Hx & Hp)
    by (split; [done |]; split; [intros Hout; by apply Hx | done]).
  subst w'. revert w. change (keeps (touches_only (f_out f)) (main lib http_Do LoadCAs n f)).
  unfold main. destruct (f_version f).
  { apply keeps_bind; [apply touches_only_trans | |].
    - intros w. by apply touches_only_same_fs.
    - intros _ w. apply touches_only_refl. }
  rewrite decide_False by done.
  apply keeps_bind; [apply touches_only_trans | apply keeps_ret, touches_only_refl |].
  intros rootCAs.
  apply keeps_bind; [apply touches_only_trans | |].
  { apply keeps_logged; [apply touches_only_logged |].
    intros w. apply log_only_logged. auto with logs. }
  intros _.
  apply keeps_bind; [apply touches_only_trans | apply Renew_keeps_touches_only |].
  intros rec.
  apply keeps_bind; [apply touches_only_trans | apply write_out_keeps_touches_only |].
  intros _.
  apply keeps_bind; [apply touches_only_trans | apply printRecord_keeps_touches_only |].
  intros _. destruct (bool_decide (0 < f_interval f)%Z).
  - apply keeps_bind; [apply touches_only_trans | apply daemon_keeps_touches_only |].
    intros rec'. apply keeps_ret, touches_only_refl.
  - apply keeps_ret, touches_only_refl.
Qed.

Lemma main_touches_only_out_witness :
  let w' := outcome_world (main demo_lib demo_server demo_LoadCAs 2
                             (demo_flags "cas/new.token") demo_world) in
  ("cas/new.token" = "" → fs w' = fs demo_world)
  ∧ (fs demo_world !! "cas/new.token" ≠ None →
     ∀ p, p ≠ "cas/new.token" → fs w' !! p = fs demo_world !! p)
  ∧ (∀ p, p ≠ "cas/new.token" →
       fs w' !! p = fs demo_world !! p
       ∨ (p = dirname "cas/new.token"
          ∧ ∃ names listable,
              fs demo_world !! p = Some (Dir names listable)
              ∧ fs w' !! p
                = Some (Dir (add_name (basename "cas/new.token") names) listable))).
Proof.
  apply (main_touches_only_out demo_lib demo_server demo_LoadCAs 2
           (demo_flags "cas/new.token") demo_world).
  discriminate.
Defined.

Lemma silent_cons_Sleep d t : silent (EvSleep d :: t) = EvSleep d :: silent t.
Proof. unfold silent. by rewrite filter_cons, decide_True. Qed.

Lemma write_out_Ret_trace out rec w w' :
  write_out out rec w = Ret () w' → trace w' = trace w.
Proof.
  intros Hret. pose proof (write_out_run out rec w) as Hrun.
  destruct (decide (out = "")); [congruence |].
  destruct (ioutil_WriteFile (fs w) out (AccessToken rec)) as [fs'|e].
  - rewrite Hrun in Hret. by injection Hret as <-.
  - destruct Hrun as (w1 & Hrun & _). congruence.
Qed.

Lemma printRecord_Ret_silent lib rec verbose w w' :
  printRecord lib rec verbose w = Ret () w' → silent (trace w') = silent (trace w).
Proof.
  intros Hret. destruct (printRecord_log_only lib rec verbose w) as (w1 & Hrun & Hlog).
  rewrite Hrun in Hret. injection Hret as <-. by apply logged_silent.
Qed.

Lemma daemon_turn_Ret_silent lib http_Do rurl out rootCAs verbose interval rec w rec' w' :
  daemon_turn lib http_Do rurl out rootCAs verbose interval rec w = Ret rec' w' →
  ∃ x, silent (trace w')
       = EvDo x.1 x.2 :: EvSleep (wrap64 (wrap64 interval * 1000000000))
         :: silent (trace w).
Proof.
  intros Hrun. unfold daemon_turn in Hrun.
  apply bind_inv_Ret in Hrun as ([] & ws & Hsleep & Hrun).
  apply bind_inv_Ret in Hrun as (rec1 & w1 & Hrenew & Hrun).
  apply bind_inv_Ret in Hrun as ([] & w2 & Hwrite & Hrun).
  apply bind_inv_Ret in Hrun as ([] & w3 & Hprint & Hrun).
  injection Hrun as <- <-. injection Hsleep as <-.
  apply Renew_Ret_inv in Hrenew as (t & req0 & _ & _ & _ & _ & _ & _ & _ & _ & Hsilent).
  simpl in Hsilent. rewrite silent_cons_Sleep in Hsilent.
  eexists (_, _). simpl.
  rewrite (printRecord_Ret_silent _ _ _ _ _ Hprint). unfold silent in *.
  rewrite (write_out_Ret_trace _ _ _ _ Hwrite). exact Hsilent.
Qed.

Lemma daemon_Ret_silent lib http_Do rurl out rootCAs verbose interval n :
  ∀ rec w rec' w',
  daemon lib http_Do n rurl out rootCAs verbose interval rec w = Ret rec' w' →
  ∃ turns, List.length turns = n
           ∧ silent (trace w')
             = (flat_map (λ x, [EvDo x.1 x.2;
                                EvSleep (wrap64 (wrap64 interval * 1000000000))]) turns
                ++ silent (trace w))%list.
Proof.
  induction n as [|n IH]; intros rec w rec' w' Hrun.
  - injection Hrun as <- <-. by exists [].
  - cbn [daemon] in Hrun.
    apply bind_inv_Ret in Hrun as (rec1 & w1 & Hturn & Hrun).
    apply daemon_turn_Ret_silent in Hturn as (x & Hx).
    apply IH in Hrun as (turns & Hlen & Hsilent).
    exists (turns ++ [x])%list. split; [rewrite length_app; simpl; lia |].
    rewrite Hsilent, Hx, flat_map_app. simpl. by rewrite <- app_assoc.
Qed.

(** X15. What a run of [main] does apart from logging and writing the output
    file, when the root-CA directory is given: one request; then, only with a
    positive interval, for each turn of the loop one sleep of the interval
    followed by one request.  Without a positive interval [main] returns after
    the single request. *)
Theorem main_schedule (lib : GoLib)
    (http_Do : list (http_Client * http_Request) → result http_Response)
    (LoadCAs : Z → M (string * option error)) (n : nat) (f : Flags) (w : World)
    (st : run_state) (w' : World) :
  f_rootCAs f ≠ "" →
  main lib http_Do LoadCAs n f w = Ret st w' →
  ∃ first turns,
    silent (trace w')
    = (schedule (wrap64 (wrap64 (f_interval f) * 1000000000)) first turns
       ++ silent (trace w))%list
    ∧ match st with
      | Looping _ => (0 < f_interval f)%Z ∧ List.length turns = n
      | Returned _ => (f_interval f ≤ 0)%Z ∧ turns = []
      end.
Proof.
  intros Hroot Hrun. unfold main in Hrun.
  destruct (f_version f).
  { apply bind_inv_Ret in Hrun as (_ & w1 & _ & Hrun). done. }
  rewrite decide_False in Hrun by done.
  apply bind_inv_Ret in Hrun as (rootCAs & w1 & [= <- <-] & Hrun).
  apply bind_inv_Ret in Hrun as ([] & w2 & Hwhen & Hrun).
  apply bind_inv_Ret in Hrun as (rec & w3 & Hrenew & Hrun).
  apply bind_inv_Ret in Hrun as ([] & w4 & Hwrite & Hrun).
  apply bind_inv_Ret in Hrun as ([] & w5 & Hprint & Hrun).
  assert (silent (trace w2) = silent (trace w)) as Hw2.
  { assert (log_only (when (bool_decide (0 < f_verbose f)%Z)
                        (fmt_Println ["Read CERN CAs from"; f_rootCAs f]))) as Hlog
      by auto with logs.
    destruct (Hlog w) as (w2' & Hw & L). rewrite Hw in Hwhen. injection Hwhen as <-.
    by apply logged_silent. }
  apply Renew_Ret_inv in Hrenew as (t & req0 & _ & _ & _ & _ & _ & _ & _ & _ & Hsilent).
  assert (silent (trace w5)
          = EvDo (renew_client lib (fs w2) (f_rootCAs f)) (renew_request req0 t)
            :: silent (trace w)) as Hw5.
  { rewrite (printRecord_Ret_silent _ _ _ _ _ Hprint). unfold silent in *.
    rewrite (write_out_Ret_trace _ _ _ _ Hwrite). by rewrite Hsilent, Hw2. }
  exists (renew_client lib (fs w2) (f_rootCAs f), renew_request req0 t).
  destruct (bool_decide (0 < f_interval f)%Z) eqn:Hint.
  - apply bind_inv_Ret in Hrun as (rec' & w6 & Hloop & Hrun).
    injection Hrun as <- <-.
    apply daemon_Ret_silent in Hloop as (turns & Hlen & Hloop).
    exists turns. split; [| by apply bool_decide_eq_true in Hint].
    unfold schedule. by rewrite Hloop, Hw5, <- app_assoc.
  - injection Hrun as <- <-. exists []. split; [done |].
    apply bool_decide_eq_false in Hint. split; [lia | done].
Qed.

Lemma main_schedule_witness :
  ∃ st w',
    main demo_lib demo_server demo_LoadCAs 1 (demo_flags "") demo_world = Ret st w'
    ∧ ∃ first turns,
        silent (trace w')
        = (schedule (wrap64 (wrap64 (f_interval (demo_flags "")) * 1000000000)) first turns
           ++ silent (trace demo_world))%list
        ∧ match st with
          | Looping _ => (0 < f_interval (demo_flags ""))%Z ∧ List.length turns = 1
          | Returned _ => (f_interval (demo_flags "") ≤ 0)%Z ∧ turns = []
          end.
Proof.
  eexists _, _. split; [vm_compute; reflexivity |].
  apply (main_schedule demo_lib demo_server demo_LoadCAs 1 (demo_flags "") demo_world);
    [discriminate | vm_compute; reflexivity].
Defined.

Lemma wrap64_small z : (- 2 ^ 63 ≤ z < 2 ^ 63)%Z → wrap64 z = z.
Proof.
  unfold wrap64. change (2 ^ 63)%Z with 9223372036854775808%Z.
  change (2 ^ 64)%Z with 18446744073709551616%Z. intros Hz.
  rewrite Z.mod_small by lia. lia.
Qed.

Lemma wrap64_high z : (2 ^ 63 ≤ z < 2 ^ 64)%Z → wrap64 z = (z - 2 ^ 64)%Z.
Proof.
  unfold wrap64. change (2 ^ 63)%Z with 9223372036854775808%Z.
  change (2 ^ 64)%Z with 18446744073709551616%Z. intros Hz.
  replace (z + 9223372036854775808)%Z
    with ((z - 9223372036854775808) + 1 * 18446744073709551616)%Z by lia.
  rewrite Z.mod_add by done. rewrite Z.mod_small by lia. lia.
Qed.

(** X16. For an interval of at most 9223372036 seconds the sleep before each
    renewal of the loop lasts the interval: the product with the number of
    nanoseconds in a second does not overflow. *)
Theorem daemon_turn_sleeps_interval (lib : GoLib)
    (http_Do : list (http_Client * http_Request) → result http_Response)
    (rurl out rootCAs : string) (verbose interval : Z) (rec : TokenRecord) (w : World)
    (rec' : TokenRecord) (w' : World) :
  (0 < interval ≤ 9223372036)%Z →
  daemon_turn lib http_Do rurl out rootCAs verbose interval rec w = Ret rec' w' →
  ∃ x, silent (trace w')
       = EvDo x.1 x.2 :: EvSleep (interval * 1000000000) :: silent (trace w).
Proof.
  intros Hi (x & Hx)%daemon_turn_Ret_silent. exists x. rewrite Hx.
  rewrite (wrap64_small interval)
    by (change (2 ^ 63)%Z with 9223372036854775808%Z; lia).
  rewrite wrap64_small by (change (2 ^ 63)%Z with 9223372036854775808%Z; lia).
  done.
Qed.

Lemma daemon_turn_sleeps_interval_witness :
  ∃ rec' w',
    daemon_turn demo_lib demo_server "https://sso.example/token/renew" "" "cas" 0 600
      demo_record demo_world = Ret rec' w'
    ∧ ∃ x, silent (trace w')
           = EvDo x.1 x.2 :: EvSleep (600 * 1000000000) :: silent (trace demo_world).
Proof.
  eexists _, _. split; [vm_compute; reflexivity |].
  eapply (daemon_turn_sleeps_interval demo_lib demo_server
           "https://sso.example/token/renew" "" "cas" 0 600 demo_record demo_world);
    [lia | vm_compute; reflexivity].
Defined.

(** X17. For an interval between 9223372037 and 18446744073 seconds the
    product overflows 64 bits and the duration handed to [time.Sleep] is
    negative, for which it does not wait: the loop renews without pause. *)
Theorem daemon_turn_sleep_overflows (lib : GoLib)
    (http_Do : list (http_Client * http_Request) → result http_Response)
    (rurl out rootCAs : string) (verbose interval : Z) (rec : TokenRecord) (w : World)
    (rec' : TokenRecord) (w' : World) :
  (9223372037 ≤ interval ≤ 18446744073)%Z →
  daemon_turn lib http_Do rurl out rootCAs verbose interval rec w = Ret rec' w' →
  ∃ x d, silent (trace w') = EvDo x.1 x.2 :: EvSleep d :: silent (trace w)
         ∧ (d < 0)%Z.
Proof.
  intros Hi (x & Hx)%daemon_turn_Ret_silent. exists x. eexists. split; [exact Hx |].
  rewrite (wrap64_small interval)
    by (change (2 ^ 63)%Z with 9223372036854775808%Z; lia).
  rewrite wrap64_high
    by (change (2 ^ 63)%Z with 9223372036854775808%Z;
        change (2 ^ 64)%Z with 18446744073709551616%Z; lia).
  change (2 ^ 64)%Z with 18446744073709551616%Z. lia.
Qed.

Lemma daemon_turn_sleep_overflows_witness :
  ∃ rec' w',
    daemon_turn demo_lib demo_server "https://sso.example/token/renew" "" "cas" 0
      9223372037 demo_record demo_world = Ret rec' w'
    ∧ ∃ x d, silent (trace w') = EvDo x.1 x.2 :: EvSleep d :: silent (trace demo_world)
             ∧ (d < 0)%Z.
Proof.
  eexists _, _. split; [vm_compute; reflexivity |].
  eapply (daemon_turn_sleep_overflows demo_lib demo_server
           "https://sso.example/token/renew" "" "cas" 0 9223372037 demo_record
           demo_world);
    [lia | vm_compute; reflexivity].
Defined.

(** X18. When no root-CA directory is given and the CA bootstrap returns an
    error, [main] terminates the process with status 1 at once: it writes the
    error to the log and neither resolves nor sends the token. *)
Theorem main_bootstrap_error_is_fatal (lib : GoLib)
    (http_Do : list (http_Client * http_Request) → result http_Response)
    (LoadCAs : Z → M (string * option error)) (n : nat) (f : Flags) (w w1 : World)
    (dir : string) (err : error) :
  f_version f = false → f_rootCAs f = "" →
  LoadCAs (f_verbose f) w = Ret (dir, Some err) w1 →
  ∃ w', main lib http_Do LoadCAs n f w = Exit 1 w' ∧ logged w1 w'.
Proof.
  intros Hv Hroot Hload. unfold main. rewrite Hv, Hroot.
  rewrite decide_True by done.
  destruct (@log_Fatalf_run string "unable to load CERN CAs: %v" [err] w1)
    as (w' & Hfatal & Hlog).
  exists w'. split; [| done].
  unfold bind at 1. unfold bind at 1. rewrite Hload. cbv beta iota. by rewrite Hfatal.
Qed.

Lemma main_bootstrap_error_is_fatal_witness :
  ∃ w', main demo_lib demo_server (λ _, ret ("/.certificates", Some "dial tcp: timeout")) 3
          {| f_version := false; f_verbose := 0; f_token := "T0"; f_out := "";
             f_url := "https://sso.example"; f_rootCAs := ""; f_interval := 0 |}
          demo_world = Exit 1 w'
        ∧ logged demo_world w'.
Proof.
  apply (main_bootstrap_error_is_fatal demo_lib demo_server
           (λ _, ret ("/.certificates", Some "dial tcp: timeout")) 3 _ demo_world
           demo_world "/.certificates" "dial tcp: timeout"); reflexivity.
Defined.



(** ** The CA bootstrap *)

Lemma bootstrap_step_same_fs h w w' :
  fs w' = fs w →
  (∃ new, exchanges (trace w') = (new ++ exchanges (trace w))%list
          ∧ Forall ca_download new) →
  bootstrap_step h w w'.
Proof.
  intros Hfs Hx. split; [| split; [| done]].
  - intros q nd Hq. rewrite Hfs, Hq. destruct nd as [| names l |]; try done.
    exists names. split; [done |]. split; [done |]. intros x Hin. by left.
  - intros q Hq. left. by rewrite Hfs.
Qed.

Lemma bootstrap_step_refl h w : bootstrap_step h w w.
Proof. apply bootstrap_step_same_fs; [done |]. exists []. by split. Qed.

Lemma bootstrap_step_logged h w w' : logged w w' → bootstrap_step h w w'.
Proof.
  intros Hlog. apply bootstrap_step_same_fs; [by apply logged_fs |].
  exists []. split; [by apply logged_exchanges | done].
Qed.

Lemma bootstrap_step_trans h w1 w2 w3 :
  bootstrap_step h w1 w2 → bootstrap_step h w2 w3 → bootstrap_step h w1 w3.
Proof.
  intros (Hg1 & Hn1 & new1 & Hx1 & Hc1) (Hg2 & Hn2 & new2 & Hx2 & Hc2).
  split; [| split].
  - intros q nd Hq. specialize (Hg1 q nd Hq).
    destruct nd as [data r wr | names l |].
    + apply (Hg2 q _ Hg1).
    + destruct Hg1 as (names' & Hq2 & Hsub & Hnew).
      destruct (Hg2 q _ Hq2) as (names'' & Hq3 & Hsub' & Hnew').
      exists names''. split; [done |]. split; [by etrans |].
      intros x Hin. destruct (Hnew' x Hin) as [Hin' | Hentry]; [| by right].
      by apply Hnew.
    + apply (Hg2 q _ Hg1).
  - intros q Hq.
    destruct (Hn1 q Hq) as [Hnone | [(-> & names & Hdir) | (link & data & Hl & -> & Hfile)]].
    + apply (Hn2 q Hnone).
    + right. left. split; [done |].
      destruct (Hg2 _ _ Hdir) as (names' & Hq3 & _). by exists names'.
    + right. right. exists link, data. split; [done |]. split; [done |].
      apply (Hg2 _ _ Hfile).
  - exists (new2 ++ new1)%list. split; [by rewrite Hx2, Hx1, app_assoc |].
    by apply Forall_app.
Qed.

Lemma bootstrap_step_keeps_path h w w' q :
  bootstrap_step h w w' → lookup_path (fs w) q ≠ None → lookup_path (fs w') q ≠ None.
Proof.
  intros (Hg & _) Hq. unfold lookup_path in *.
  destruct (decide (q = "")); [done |].
  destruct (fs w !! q) as [nd|] eqn:Hnode; [| done].
  specialize (Hg q nd Hnode). destruct nd as [data r wr | names l |]; [| | done].
  - by rewrite Hg.
  - destruct Hg as (names' & -> & _). done.
Qed.

Lemma certificates_dir_nonempty h : h +:+ "/.certificates" ≠ "".
Proof. by destruct h. Qed.

Lemma os_Mkdir_present fs0 p :
  p ≠ "" → fs0 !! p ≠ None → ∃ e, os_Mkdir fs0 p = Err e.
Proof.
  intros Hp Hnode. unfold os_Mkdir. rewrite decide_False by done.
  destruct (fs0 !! p) as [[]|]; [eauto .. | done].
Qed.

(** A certificate directory that [os.Mkdir] refuses to make is still refused
    after the bootstrap went on. *)
Lemma bootstrap_step_keeps_Mkdir_error h w w' :
  bootstrap_step h w w' →
  (∃ e, os_Mkdir (fs w) (h +:+ "/.certificates") = Err e) →
  ∃ e, os_Mkdir (fs w') (h +:+ "/.certificates") = Err e.
Proof.
  intros (Hg & Hn & _) [e He].
  pose proof (certificates_dir_nonempty h) as Hne.
  remember (h +:+ "/.certificates") as dname eqn:Hdname. clear Hdname.
  destruct (fs w' !! dname) as [nd'|] eqn:Hnode';
    [apply os_Mkdir_present; [done | by rewrite Hnode'] |].
  unfold os_Mkdir in *. rewrite decide_False in * by done. rewrite Hnode'.
  destruct (fs w !! dname) as [nd|] eqn:Hnode.
  { specialize (Hg _ _ Hnode). destruct nd as [| names l |]; [congruence | | congruence].
    destruct Hg as (names' & Hg & _). congruence. }
  unfold create_entry in *.
  destruct (fs w !! dirname dname) as [nd|] eqn:Hparent.
  - specialize (Hg _ _ Hparent). destruct nd as [data r wr | names l |].
    + rewrite Hg. eauto.
    + destruct Hg as (names' & -> & _).
      destruct (decide (basename dname = "")); [eauto | done].
    + rewrite Hg. eauto.
  - destruct (Hn _ Hparent) as [-> | [(Heq & names & Hdir) | (link & data & _ & _ & ->)]];
      [eauto | | eauto].
    rewrite Heq in Hdir. congruence.
Qed.

Lemma http_Get_run lib http_Do link w :
  link ∈ links →
  ∃ r w', http_Get lib http_Do link w = Ret r w'
          ∧ fs w' = fs w
          ∧ ∃ new, exchanges (trace w') = (new ++ exchanges (trace w))%list
                   ∧ Forall ca_download new.
Proof.
  intros Hlink. unfold http_Get, http_NewRequest.
  destruct (NewRequest_error lib "GET" link) as [e|].
  - exists (Err e), w. split; [done |]. split; [done |]. exists []. by split.
  - eexists _, _. split; [reflexivity |]. split; [done |].
    eexists [_]. split; [reflexivity |].
    constructor; [by repeat split | constructor].
Qed.

Lemma LoadCAs_link_run lib http_Do h verbose link w :
  link ∈ links →
  ∃ r w', LoadCAs_link lib http_Do h verbose link w = Ret r w'
          ∧ bootstrap_step h w w'
          ∧ (r = None → lookup_path (fs w') (link_file h link) ≠ None).
Proof.
  intros Hlink. unfold LoadCAs_link. cbv zeta. set (fname := link_file h link).
  unfold bind at 1, read_fs at 1, os_Stat.
  destruct (lookup_path (fs w) fname) as [nd|] eqn:Hstat.
  { exists None, w. split; [done |]. split; [apply bootstrap_step_refl |].
    intros _. by rewrite Hstat. }
  assert (log_only (when (bool_decide (0 < verbose)%Z) (fmt_Println ["download"; link])))
    as Hlog by auto with logs.
  destruct (Hlog w) as (wa & Ha & La). rewrite (bind_Ret _ _ _ _ _ Ha).
  destruct (http_Get_run lib http_Do link wa Hlink) as (r & wb & Hget & Hfs & new & Hx & Hnew).
  rewrite (bind_Ret _ _ _ _ _ Hget).
  assert (fs wb = fs w) as Hfsw by (by rewrite Hfs, (logged_fs _ _ La)).
  assert (bootstrap_step h w wb) as Hstep.
  { apply bootstrap_step_same_fs; [done |].
    exists new. split; [| done]. by rewrite Hx, (logged_exchanges _ _ La). }
  destruct r as [resp|e];
    [| exists (Some e), wb; split; [done | split; [exact Hstep | done]]].
  destruct (Body resp) as [data|e];
    [| exists (Some e), wb; split; [done | split; [exact Hstep | done]]].
  unfold WriteFile.
  destruct (ioutil_WriteFile (fs wb) fname data) as [fs'|e] eqn:Hwrite;
    [| exists (Some e), wb; split; [done | split; [exact Hstep | done]]].
  exists None, {| fs := fs'; trace := trace wb |}. split; [done |].
  rewrite Hfsw in Hwrite.
  apply ioutil_WriteFile_Ok in Hwrite
    as (Hne & [(d & r & Hfile & _) | (Hnew' & names & l & Hdir & Hbase & ->)]).
  { revert Hstat. unfold lookup_path. rewrite decide_False by done. by rewrite Hfile. }
  split.
  - eapply bootstrap_step_trans; [exact Hstep |]. split; [| split]; cbn [fs trace].
    + intros q nd Hq. rewrite Hfsw in Hq.
      assert (q ≠ fname) as Hqf by (intros ->; congruence).
      rewrite lookup_insert_ne by done.
      destruct (decide (q = dirname fname)) as [->|Hqd].
      * rewrite lookup_insert_eq. rewrite Hdir in Hq. injection Hq as <-.
        exists (add_name (basename fname) names). split; [done |]. split.
        -- intros x Hin. apply elem_of_add_name. by right.
        -- intros x [-> | Hin]%elem_of_add_name; [| by left].
           right. exists fname. split; [| done]. right. by exists link.
      * rewrite lookup_insert_ne by done. rewrite Hq.
        destruct nd as [| names0 l0 |]; try done.
        exists names0. split; [done |]. split; [done |]. intros x Hin. by left.
    + intros q Hq. rewrite Hfsw in Hq.
      destruct (decide (q = fname)) as [->|Hqf].
      * right. right. exists link, data. by rewrite lookup_insert_eq.
      * left. rewrite lookup_insert_ne by done.
        rewrite lookup_insert_ne by (intros <-; congruence). done.
    + exists []. by split.
  - intros _. cbn [fs]. unfold lookup_path. by rewrite decide_False, lookup_insert_eq.
Qed.

Lemma LoadCAs_links_run lib http_Do h verbose ls : ∀ w,
  ls ⊆ links →
  ∃ err w', LoadCAs_links lib http_Do h (h +:+ "/.certificates") verbose ls w
            = Ret (h +:+ "/.certificates", err) w'
            ∧ bootstrap_step h w w'
            ∧ (err = None →
               ∀ link, link ∈ ls → lookup_path (fs w') (link_file h link) ≠ None).
Proof.
  induction ls as [|link ls IH]; intros w Hsub.
  { exists None, w. split; [done |]. split; [apply bootstrap_step_refl |].
    intros _ link []%elem_of_nil. }
  destruct (LoadCAs_link_run lib http_Do h verbose link w) as (r & w1 & Hrun & Hstep & Hfile).
  { apply Hsub. by left. }
  cbn [LoadCAs_links]. rewrite (bind_Ret _ _ _ _ _ Hrun).
  destruct r as [e|]; [exists (Some e), w1; split; [done | split; [exact Hstep | done]] |].
  destruct (IH w1) as (err & w2 & Hrest & Hstep2 & Hfiles).
  { intros x Hx. apply Hsub. by right. }
  exists err, w2. split; [done |]. split; [by eapply bootstrap_step_trans |].
  intros -> l [-> | Hl]%elem_of_cons; [| by apply Hfiles].
  apply (bootstrap_step_keeps_path h w1 w2); auto.
Qed.

Lemma Mkdir_run h w :
  ∃ r w', Mkdir (h +:+ "/.certificates") w = Ret r w'
          ∧ bootstrap_step h w w'
          ∧ ∃ e, os_Mkdir (fs w') (h +:+ "/.certificates") = Err e.
Proof.
  pose proof (certificates_dir_nonempty h) as Hne.
  set (dname := h +:+ "/.certificates") in *. unfold Mkdir.
  destruct (os_Mkdir (fs w) dname) as [fs'|e] eqn:Hmk.
  - eexists None, _. split; [reflexivity |]. cbn [fs].
    revert Hmk. unfold os_Mkdir at 1. rewrite decide_False by done.
    destruct (fs w !! dname) as [[]|] eqn:Hnode; try done.
    intros (names & l & Hdir & Hbase & ->)%create_entry_Ok. split.
    + split; [| split]; cbn [fs trace].
      * intros q nd Hq.
        assert (q ≠ dname) as Hqf by (intros ->; congruence).
        rewrite lookup_insert_ne by done.
        destruct (decide (q = dirname dname)) as [->|Hqd].
        -- rewrite lookup_insert_eq. rewrite Hdir in Hq. injection Hq as <-.
           exists (add_name (basename dname) names). split; [done |]. split.
           ++ intros x Hin. apply elem_of_add_name. by right.
           ++ intros x [-> | Hin]%elem_of_add_name; [| by left].
              right. exists dname. split; [by left | done].
        -- rewrite lookup_insert_ne by done. rewrite Hq.
           destruct nd as [| names0 l0 |]; try done.
           exists names0. split; [done |]. split; [done |]. intros x Hin. by left.
      * intros q Hq. destruct (decide (q = dname)) as [->|Hqf].
        -- right. left. split; [done |]. exists []. by rewrite lookup_insert_eq.
        -- left. rewrite lookup_insert_ne by done.
           rewrite lookup_insert_ne by (intros <-; congruence). done.
      * exists []. by split.
    + apply os_Mkdir_present; [done |]. by rewrite lookup_insert_eq.
  - exists (Some e), w. split; [done |]. split; [apply bootstrap_step_refl | eauto].
Qed.

(** Every run of [LoadCAs] for an environment that gives a home directory. *)
Lemma LoadCAs_run lib http_Do environ verbose h w :
  find_home environ = Home h →
  ∃ err w', LoadCAs lib http_Do environ verbose w = Ret (h +:+ "/.certificates", err) w'
            ∧ bootstrap_step h w w'
            ∧ (∃ e, os_Mkdir (fs w') (h +:+ "/.certificates") = Err e)
            ∧ (err = None →
               ∀ link, link ∈ links → lookup_path (fs w') (link_file h link) ≠ None).
Proof.
  intros Hhome. unfold LoadCAs. rewrite Hhome. cbv zeta.
  unfold bind at 1, read_fs at 1, os_Stat.
  assert (∃ w1, (match
                   match lookup_path (fs w) (h +:+ "/.certificates") with
                   | Some _ => None
                   | None => Some ("stat " +:+ (h +:+ "/.certificates")
                                   +:+ ": no such file or directory")
                   end
                 with
                 | Some _ => Mkdir (h +:+ "/.certificates");; ret ()
                 | None => ret ()
                 end) w = Ret () w1
                ∧ bootstrap_step h w w1
                ∧ ∃ e, os_Mkdir (fs w1) (h +:+ "/.certificates") = Err e)
    as (w1 & Hdir & Hstep1 & Hexists).
  { destruct (lookup_path (fs w) (h +:+ "/.certificates")) as [nd|] eqn:Hstat.
    - exists w. split; [done |]. split; [apply bootstrap_step_refl |].
      apply os_Mkdir_present; [apply certificates_dir_nonempty |].
      revert Hstat. unfold lookup_path. case_decide; [done |].
      by destruct (fs w !! (h +:+ "/.certificates")).
    - destruct (Mkdir_run h w) as (r & w1 & Hmk & Hstep & Hex).
      exists w1. split; [| done]. by rewrite (bind_Ret _ _ _ _ _ Hmk). }
  rewrite (bind_Ret _ _ _ _ _ Hdir).
  destruct (LoadCAs_links_run lib http_Do h verbose links w1) as (err & w2 & Hrun & Hstep2 & Hfiles);
    [done |].
  exists err, w2. split; [done |]. split; [by eapply bootstrap_step_trans |].
  split; [| done]. by eapply bootstrap_step_keeps_Mkdir_error.
Qed.

Lemma LoadCAs_link_present lib http_Do h verbose link w :
  lookup_path (fs w) (link_file h link) ≠ None →
  LoadCAs_link lib http_Do h verbose link w = Ret None w.
Proof.
  intros Hfile. unfold LoadCAs_link. cbv zeta.
  unfold bind at 1, read_fs at 1, os_Stat.
  by destruct (lookup_path (fs w) (link_file h link)).
Qed.

Lemma LoadCAs_links_present lib http_Do h dname verbose w ls :
  (∀ link, link ∈ ls → lookup_path (fs w) (link_file h link) ≠ None) →
  LoadCAs_links lib http_Do h dname verbose ls w = Ret (dname, None) w.
Proof.
  induction ls as [|link ls IH]; intros Hfiles; [done |].
  cbn [LoadCAs_links].
  rewrite (bind_Ret _ _ _ _ _ (LoadCAs_link_present lib http_Do h verbose link w
                                 (Hfiles link ltac:(by left)))).
  apply IH. intros l Hl. apply Hfiles. by right.
Qed.

Lemma LoadCAs_noop lib http_Do environ verbose h w :
  find_home environ = Home h →
  (∃ e, os_Mkdir (fs w) (h +:+ "/.certificates") = Err e) →
  (∀ link, link ∈ links → lookup_path (fs w) (link_file h link) ≠ None) →
  LoadCAs lib http_Do environ verbose w = Ret (h +:+ "/.certificates", None) w.
Proof.
  intros Hhome [e Hdir] Hfiles. unfold LoadCAs. rewrite Hhome. cbv zeta.
  unfold bind at 1, read_fs at 1, os_Stat.
  destruct (lookup_path (fs w) (h +:+ "/.certificates")) as [nd|] eqn:Hstat.
  - unfold bind at 1, ret at 1. by apply LoadCAs_links_present.
  - unfold bind at 1. unfold bind at 1. unfold Mkdir. rewrite Hdir.
    unfold ret at 1. by apply LoadCAs_links_present.
Qed.

Lemma os_Stat_succeeds fs0 p : os_Stat fs0 p = None ↔ lookup_path fs0 p ≠ None.
Proof. unfold os_Stat. destruct (lookup_path fs0 p); split; done. Qed.

Lemma lookup_path_present fs0 p : lookup_path fs0 p ≠ None → fs0 !! p ≠ None.
Proof.
  unfold lookup_path. case_decide; [done |]. by destruct (fs0 !! p).
Qed.

Lemma ca_link_names h name :
  name ∈ ["CERN%20Certification%20Authority.crt";
          "CERN%20Certification%20Authority(1).crt";
          "CERN%20Root%20Certification%20Authority%202.crt";
          "CERN%20Grid%20Certification%20Authority.crt"] →
  ∃ link, link ∈ links ∧ link_file h link = h +:+ "/.certificates/" +:+ name.
Proof.
  intros Hname. unfold links.
  repeat (apply elem_of_cons in Hname as [-> | Hname]);
    [.. | by apply elem_of_nil in Hname].
  - eexists. split; [by left | reflexivity].
  - eexists. split; [right; by left | reflexivity].
  - eexists. split; [do 2 right; by left | reflexivity].
  - eexists. split; [do 3 right; by left | reflexivity].
Qed.

Lemma split_scan_nonempty sep s : ∀ skip, split_scan sep skip s ≠ [].
Proof.
  induction s as [|c s IH]; intros skip; [done |].
  cbn [split_scan]. destruct skip as [|k]; [| apply IH].
  destruct (has_prefix sep (String c s)); [done |].
  by destruct (split_scan sep 0 s).
Qed.

Lemma split_scan_piece a :
  occurs "="%char a = false →
  split_scan "=" 0 a = [a]
  ∧ ∀ b, split_scan "=" 0 (a +:+ String "="%char b) = a :: split_scan "=" 0 b.
Proof.
  induction a as [|c a IH]; intros Hocc.
  { split; [done |]. intros b.
    change ("" +:+ String "="%char b) with (String "="%char b).
    cbn [split_scan has_prefix String.length Nat.sub]. by rewrite decide_True. }
  cbn [occurs] in Hocc. destruct (decide ("="%char = c)) as [|Hc]; [done |].
  destruct (IH Hocc) as [IH1 IH2]. split.
  - cbn [split_scan has_prefix String.length Nat.sub].
    rewrite decide_False by done. by rewrite IH1.
  - intros b.
    change (String c a +:+ String "="%char b) with (String c (a +:+ String "="%char b)).
    cbn [split_scan has_prefix String.length Nat.sub].
    rewrite decide_False by done. by rewrite IH2.
Qed.

Lemma split_scan_first_inv s : ∀ piece pieces,
  split_scan "=" 0 s = piece :: pieces →
  s = piece ∨ has_prefix (piece +:+ "=") s = true.
Proof.
  induction s as [|c s IH]; intros piece pieces.
  { intros [= <- <-]. by left. }
  cbn [split_scan has_prefix String.length Nat.sub].
  destruct (decide ("="%char = c)) as [<-|Hc].
  - intros [= <- _]. right. change ("" +:+ "=") with "=".
    cbn [has_prefix]. by rewrite decide_True.
  - destruct (split_scan "=" 0 s) as [|p ps] eqn:Hs.
    { by destruct (split_scan_nonempty "=" s 0). }
    intros [= <- <-]. destruct (IH p ps eq_refl) as [-> | Hpre]; [by left |].
    right. change (String c p +:+ "=") with (String c (p +:+ "=")).
    cbn [has_prefix]. by rewrite decide_True.
Qed.

Lemma find_home_skip pre rest :
  (∀ item, item ∈ pre → item ≠ "HOME" ∧ has_prefix "HOME=" item = false) →
  find_home (pre ++ rest)%list = find_home rest.
Proof.
  induction pre as [|item pre IH]; intros Hpre; [done |].
  destruct (Hpre item ltac:(by left)) as [Hbare Hvalue].
  cbn [app find_home]. unfold strings_Split. rewrite decide_False by done.
  destruct (split_scan "=" 0 item) as [|value0 values] eqn:Hsplit.
  { by destruct (split_scan_nonempty "=" item 0). }
  destruct (decide (value0 = "HOME")) as [->|_].
  - apply split_scan_first_inv in Hsplit as [-> | Hp]; [done |].
    change ("HOME" +:+ "=") with "HOME=" in Hp. congruence.
  - apply IH. intros x Hx. apply Hpre. by right.
Qed.

Lemma find_home_HOME a tail rest :
  occurs "="%char a = false →
  tail = "" ∨ (∃ b, tail = String "="%char b) →
  find_home (("HOME=" +:+ a +:+ tail) :: rest) = Home a.
Proof.
  intros Hocc Htail. cbn [find_home]. unfold strings_Split.
  rewrite decide_False by done.
  destruct (split_scan_piece "HOME" eq_refl) as [_ Hname].
  change ("HOME=" +:+ a +:+ tail) with ("HOME" +:+ String "="%char (a +:+ tail)).
  rewrite Hname. rewrite decide_True by done.
  destruct (split_scan_piece a Hocc) as [Hlast Hmore].
  destruct Htail as [-> | [b ->]].
  - replace (a +:+ "") with a; [by rewrite Hlast |].
    clear. induction a as [|c a IH]; [done |].
    change (String c a +:+ "") with (String c (a +:+ "")). by rewrite <- IH.
  - by rewrite Hmore.
Qed.

Lemma find_home_bare rest : find_home ("HOME" :: rest) = HomePanic.
Proof. reflexivity. Qed.

Lemma find_home_missing environ :
  (∀ item, item ∈ environ → item ≠ "HOME" ∧ has_prefix "HOME=" item = false) →
  find_home environ = Home "".
Proof.
  intros Hall. rewrite <- (app_nil_r environ). by rewrite find_home_skip.
Qed.

(** X20. Given a home directory, [LoadCAs] never terminates the process and
    always returns the directory [.certificates] below it, also when it
    returns an error.  Every request it sends is a GET of one of the four CA
    links, without any header, sent with the default client. *)
Theorem LoadCAs_returns_directory (lib : GoLib)
    (http_Do : list (http_Client * http_Request) → result http_Response)
    (environ : list string) (verbose : Z) (h : string) (w : World) :
  find_home environ = Home h →
  ∃ err w' new,
    LoadCAs lib http_Do environ verbose w = Ret (h +:+ "/.certificates", err) w'
    ∧ exchanges (trace w') = (new ++ exchanges (trace w))%list
    ∧ ∀ c req, (c, req) ∈ new →
        c = default_client ∧ Method req = "GET" ∧ URL req ∈ links ∧ Header req = ∅.
Proof.
  intros Hhome.
  destruct (LoadCAs_run lib http_Do environ verbose h w Hhome)
    as (err & w' & Hrun & (_ & _ & new & Hx & Hnew) & _).
  exists err, w', new. split; [done |]. split; [done |].
  intros c req Hin. rewrite Forall_forall in Hnew. apply (Hnew (c, req) Hin).
Qed.

Lemma LoadCAs_returns_directory_witness :
  ∃ err w' new,
    LoadCAs demo_lib demo_ca_server demo_environ 0 demo_world
    = Ret ("/home/u" +:+ "/.certificates", err) w'
    ∧ exchanges (trace w') = (new ++ exchanges (trace demo_world))%list
    ∧ ∀ c req, (c, req) ∈ new →
        c = default_client ∧ Method req = "GET" ∧ URL req ∈ links ∧ Header req = ∅.
Proof.
  apply (LoadCAs_returns_directory demo_lib demo_ca_server demo_environ 0 "/home/u"
           demo_world).
  reflexivity.
Defined.

(** X21. [LoadCAs] only adds to the file system.  A file that existed keeps
    its contents and permissions (nothing is overwritten or removed).  A
    directory that existed keeps its flag, and its listing can only gain the
    names of entries the bootstrap makes in it: the certificate directory and
    the files of the links.  A path that appears is the certificate
    directory, as a directory, or the file of one of the links, as a file. *)
Theorem LoadCAs_only_adds (lib : GoLib)
    (http_Do : list (http_Client * http_Request) → result http_Response)
    (environ : list string) (verbose : Z) (h : string) (w : World) :
  find_home environ = Home h →
  let w' := outcome_world (LoadCAs lib http_Do environ verbose w) in
  (∀ q data r wr, fs w !! q = Some (File data r wr) → fs w' !! q = Some (File data r wr))
  ∧ (∀ q, fs w !! q = Some Unreachable → fs w' !! q = Some Unreachable)
  ∧ (∀ q names listable, fs w !! q = Some (Dir names listable) →
       ∃ names', fs w' !! q = Some (Dir names' listable)
                 ∧ names ⊆ names'
                 ∧ ∀ x, x ∈ names' →
                     x ∈ names
                     ∨ ∃ p, (p = h +:+ "/.certificates"
                             ∨ ∃ link, link ∈ links ∧ p = link_file h link)
                            ∧ q = dirname p ∧ x = basename p)
  ∧ (∀ q, fs w !! q = None →
       fs w' !! q = None
       ∨ (q = h +:+ "/.certificates" ∧ ∃ names, fs w' !! q = Some (Dir names true))
       ∨ (∃ link data, link ∈ links ∧ q = link_file h link
                       ∧ fs w' !! q = Some (File data true true))).
Proof.
  intros Hhome.
  destruct (LoadCAs_run lib http_Do environ verbose h w Hhome)
    as (err & w1 & Hrun & (Hg & Hn & _) & _).
  rewrite Hrun. cbn [outcome_world]. split; [| split; [| split]].
  - intros q data r wr Hq. apply (Hg _ _ Hq).
  - intros q Hq. apply (Hg _ _ Hq).
  - intros q names l Hq. apply (Hg _ _ Hq).
  - exact Hn.
Qed.

Lemma LoadCAs_only_adds_witness :
  let w' := outcome_world (LoadCAs demo_lib demo_ca_server demo_environ 0 demo_world) in
  (∀ q data r wr, fs demo_world !! q = Some (File data r wr) →
     fs w' !! q = Some (File data r wr))
  ∧ (∀ q, fs demo_world !! q = Some Unreachable → fs w' !! q = Some Unreachable)
  ∧ (∀ q names listable, fs demo_world !! q = Some (Dir names listable) →
       ∃ names', fs w' !! q = Some (Dir names' listable)
                 ∧ names ⊆ names'
                 ∧ ∀ x, x ∈ names' →
                     x ∈ names
                     ∨ ∃ p, (p = "/home/u" +:+ "/.certificates"
                             ∨ ∃ link, link ∈ links ∧ p = link_file "/home/u" link)
                            ∧ q = dirname p ∧ x = basename p)
  ∧ (∀ q, fs demo_world !! q = None →
       fs w' !! q = None
       ∨ (q = "/home/u" +:+ "/.certificates"
          ∧ ∃ names, fs w' !! q = Some (Dir names true))
       ∨ (∃ link data, link ∈ links ∧ q = link_file "/home/u" link
                       ∧ fs w' !! q = Some (File data true true))).
Proof.
  apply (LoadCAs_only_adds demo_lib demo_ca_server demo_environ 0 "/home/u" demo_world).
  reflexivity.
Defined.

(** X22. When [LoadCAs] returns without error, [os.Stat] succeeds on the
    certificate directory's four CA files; their names are the last path
    segments of the links as written, percent-escapes included. *)
Theorem LoadCAs_success_files_present (lib : GoLib)
    (http_Do : list (http_Client * http_Request) → result http_Response)
    (environ : list string) (verbose : Z) (h dir : string) (w w' : World) :
  find_home environ = Home h →
  LoadCAs lib http_Do environ verbose w = Ret (dir, None) w' →
  ∀ name, name ∈ ["CERN%20Certification%20Authority.crt";
                  "CERN%20Certification%20Authority(1).crt";
                  "CERN%20Root%20Certification%20Authority%202.crt";
                  "CERN%20Grid%20Certification%20Authority.crt"] →
    os_Stat (fs w') (h +:+ "/.certificates/" +:+ name) = None.
Proof.
  intros Hhome Hrun name Hname.
  destruct (LoadCAs_run lib http_Do environ verbose h w Hhome)
    as (err & w1 & Hrun1 & _ & _ & Hfiles).
  rewrite Hrun1 in Hrun. injection Hrun as _ -> ->.
  destruct (ca_link_names h name Hname) as (link & Hlink & <-).
  apply os_Stat_succeeds. by apply Hfiles.
Qed.

Lemma LoadCAs_success_files_present_witness :
  os_Stat (fs demo_world_CAs)
    ("/home/u" +:+ "/.certificates/" +:+ "CERN%20Root%20Certification%20Authority%202.crt")
  = None.
Proof.
  apply (LoadCAs_success_files_present demo_lib demo_ca_server demo_environ 0 "/home/u"
           "/home/u/.certificates" demo_world demo_world_CAs).
  - reflexivity.
  - vm_compute. reflexivity.
  - do 2 right. by left.
Defined.

(** X23. When the certificate directory and the four CA files exist,
    whatever they hold, [LoadCAs] does nothing: it sends no request, writes
    nothing and prints nothing, and returns the directory without error. *)
Theorem LoadCAs_present_is_noop (lib : GoLib)
    (http_Do : list (http_Client * http_Request) → result http_Response)
    (environ : list string) (verbose : Z) (h : string) (w : World) :
  find_home environ = Home h →
  os_Stat (fs w) (h +:+ "/.certificates") = None →
  (∀ link, link ∈ links → os_Stat (fs w) (link_file h link) = None) →
  LoadCAs lib http_Do environ verbose w = Ret (h +:+ "/.certificates", None) w.
Proof.
  intros Hhome Hdir Hfiles. apply LoadCAs_noop; [done | |].
  - apply os_Mkdir_present; [apply certificates_dir_nonempty |].
    by apply lookup_path_present, os_Stat_succeeds.
  - intros link Hlink. by apply os_Stat_succeeds, Hfiles.
Qed.

Lemma LoadCAs_present_is_noop_witness :
  LoadCAs demo_lib demo_server demo_environ 1 demo_world_CAs
  = Ret ("/home/u" +:+ "/.certificates", None) demo_world_CAs.
Proof.
  apply (LoadCAs_present_is_noop demo_lib demo_server demo_environ 1 "/home/u"
           demo_world_CAs).
  - reflexivity.
  - vm_compute. reflexivity.
  - intros link Hlink. unfold links in Hlink.
    repeat (apply elem_of_cons in Hlink as [-> | Hlink]);
      [vm_compute; reflexivity .. | by apply elem_of_nil in Hlink].
Defined.

(** X24. A successful bootstrap is not repeated: in the world that a run of
    [LoadCAs] without error leaves, every later run, with whatever network
    and verbosity, returns the same directory and changes nothing. *)
Theorem LoadCAs_second_run_is_noop (lib lib' : GoLib)
    (http_Do http_Do' : list (http_Client * http_Request) → result http_Response)
    (environ : list string) (verbose verbose' : Z) (h dir : string) (w w' : World) :
  find_home environ = Home h →
  LoadCAs lib http_Do environ verbose w = Ret (dir, None) w' →
  LoadCAs lib' http_Do' environ verbose' w' = Ret (dir, None) w'.
Proof.
  intros Hhome Hrun.
  destruct (LoadCAs_run lib http_Do environ verbose h w Hhome)
    as (err & w1 & Hrun1 & _ & Hdir & Hfiles).
  rewrite Hrun1 in Hrun. injection Hrun as <- -> ->.
  apply LoadCAs_noop; auto.
Qed.

Lemma LoadCAs_second_run_is_noop_witness :
  LoadCAs demo_lib demo_server demo_environ 1 demo_world_CAs
  = Ret ("/home/u/.certificates", None) demo_world_CAs.
Proof.
  apply (LoadCAs_second_run_is_noop demo_lib demo_lib demo_ca_server demo_server
           demo_environ 0 1 "/home/u" "/home/u/.certificates" demo_world demo_world_CAs).
  - reflexivity.
  - vm_compute. reflexivity.
Defined.

(** X25. The home directory is what stands between the first and the second
    equals sign of the first environment entry named HOME: a value that
    contains an equals sign is cut there, and entries after the first HOME
    are not looked at. *)
Theorem LoadCAs_home_from_environment (lib : GoLib)
    (http_Do : list (http_Client * http_Request) → result http_Response)
    (pre post : list string) (a tail : string) (verbose : Z) (w : World) :
  (∀ item, item ∈ pre → item ≠ "HOME" ∧ has_prefix "HOME=" item = false) →
  occurs "="%char a = false →
  tail = "" ∨ (∃ b, tail = String "="%char b) →
  ∃ err w',
    LoadCAs lib http_Do (pre ++ ("HOME=" +:+ a +:+ tail) :: post)%list verbose w
    = Ret (a +:+ "/.certificates", err) w'.
Proof.
  intros Hpre Hocc Htail.
  destruct (LoadCAs_run lib http_Do (pre ++ ("HOME=" +:+ a +:+ tail) :: post)%list
              verbose a w) as (err & w' & Hrun & _).
  { rewrite find_home_skip by done. by apply find_home_HOME. }
  by exists err, w'.
Qed.

Lemma LoadCAs_home_from_environment_witness :
  ∃ err w',
    LoadCAs demo_lib demo_ca_server
      (["PATH=/bin"] ++ ("HOME=" +:+ "/home/u" +:+ "=x=y") :: ["HOME=/root"])%list
      0 demo_world
    = Ret ("/home/u" +:+ "/.certificates", err) w'.
Proof.
  apply (LoadCAs_home_from_environment demo_lib demo_ca_server ["PATH=/bin"]
           ["HOME=/root"] "/home/u" "=x=y" 0 demo_world).
  - intros item Hitem. apply elem_of_cons in Hitem as [-> | Hitem];
      [by split | by apply elem_of_nil in Hitem].
  - reflexivity.
  - right. by exists "x=y".
Defined.

(** X26. Without any entry named HOME in the environment, [LoadCAs] does not
    fail for that reason: it works in the directory [/.certificates] at the
    root of the file system. *)
Theorem LoadCAs_without_HOME (lib : GoLib)
    (http_Do : list (http_Client * http_Request) → result http_Response)
    (environ : list string) (verbose : Z) (w : World) :
  (∀ item, item ∈ environ → item ≠ "HOME" ∧ has_prefix "HOME=" item = false) →
  ∃ err w', LoadCAs lib http_Do environ verbose w = Ret ("/.certificates", err) w'.
Proof.
  intros Hall.
  destruct (LoadCAs_run lib http_Do environ verbose "" w (find_home_missing _ Hall))
    as (err & w' & Hrun & _).
  by exists err, w'.
Qed.

Lemma LoadCAs_without_HOME_witness :
  ∃ err w', LoadCAs demo_lib demo_ca_server ["PATH=/bin"; "HOMER=x"] 0 demo_world
            = Ret ("/.certificates", err) w'.
Proof.
  apply (LoadCAs_without_HOME demo_lib demo_ca_server ["PATH=/bin"; "HOMER=x"] 0
           demo_world).
  intros item Hitem.
  repeat (apply elem_of_cons in Hitem as [-> | Hitem]);
    [by split .. | by apply elem_of_nil in Hitem].
Defined.

(** X27. An environment entry that is the bare name HOME, before any entry
    that gives HOME a value, stops [main] when it needs the CA bootstrap: the
    index [value[1]] is out of range, and the process ends with status 2
    before the program logs, writes or sends anything (the panic report of the
    run time is not part of the trace). *)
Theorem main_bare_HOME_panics (lib : GoLib)
    (http_Do : list (http_Client * http_Request) → result http_Response)
    (pre post : list string) (n : nat) (f : Flags) (w : World) :
  f_version f = false → f_rootCAs f = "" →
  (∀ item, item ∈ pre → item ≠ "HOME" ∧ has_prefix "HOME=" item = false) →
  main lib http_Do (LoadCAs lib http_Do (pre ++ "HOME" :: post)%list) n f w = Exit 2 w.
Proof.
  intros Hv Hroot Hpre. unfold main. rewrite Hv, Hroot.
  rewrite decide_True by done.
  unfold bind at 1. unfold bind at 1. unfold LoadCAs.
  by rewrite find_home_skip, find_home_bare.
Qed.

Lemma main_bare_HOME_panics_witness :
  main demo_lib demo_server
    (LoadCAs demo_lib demo_server (["PATH=/bin"] ++ "HOME" :: ["HOME=/home/u"])%list) 3
    {| f_version := false; f_verbose := 1; f_token := "T0"; f_out := "";
       f_url := "https://sso.example"; f_rootCAs := ""; f_interval := 0 |}
    demo_world
  = Exit 2 demo_world.
Proof.
  apply (main_bare_HOME_panics demo_lib demo_server ["PATH=/bin"] ["HOME=/home/u"] 3 _
           demo_world); [reflexivity | reflexivity |].
  intros item Hitem. apply elem_of_cons in Hitem as [-> | Hitem];
    [by split | by apply elem_of_nil in Hitem].
Defined.

Lemma bind_ext {A B} (m : M A) (k1 k2 : A → M B) w :
  (∀ a w', k1 a w' = k2 a w') → bind m k1 w = bind m k2 w.
Proof. intros Hk. unfold bind. by destruct (m w). Qed.

Lemma LoadCAs_link_status lib http_Do status h verbose link w :
  LoadCAs_link lib (with_status status http_Do) h verbose link w
  = LoadCAs_link lib http_Do h verbose link w.
Proof.
  unfold LoadCAs_link. cbv zeta.
  apply bind_ext. intros [e|] w1; [| done].
  apply bind_ext. intros _ w2.
  unfold bind, http_Get. destruct (http_NewRequest lib "GET" link) as [req|e']; [| done].
  unfold client_Do, with_status. cbn [cl_Transport default_client exchanges].
  by destruct (http_Do _) as [resp|e'].
Qed.

(** X28. [LoadCAs] never looks at the status code of an answer: with every
    status replaced by any other it ends in the same way in the same world.
    (The body of a 404 or 500 answer is stored as the CA file.) *)
Theorem LoadCAs_ignores_status (lib : GoLib)
    (http_Do : list (http_Client * http_Request) → result http_Response)
    (status : Z) (environ : list string) (verbose : Z) (w : World) :
  LoadCAs lib (with_status status http_Do) environ verbose w
  = LoadCAs lib http_Do environ verbose w.
Proof.
  unfold LoadCAs. destruct (find_home environ) as [h|]; [| done]. cbv zeta.
  apply bind_ext. intros st w0.
  apply bind_ext. intros _ w1.
  induction links as [|link ls IH] in w1 |- *; [done |].
  cbn [LoadCAs_links].
  unfold bind. rewrite LoadCAs_link_status.
  by destruct (LoadCAs_link lib http_Do h verbose link w1) as [[e|] w2|s w2].
Qed.
